(** * imdb-api: the response normaliser and request orchestrator of [src/imdb.ts]

    A shallow embedding of [src/imdb.ts] (record builders [Movie], [Episode],
    [TVShow], [Game], [SearchResult], [SearchResults], the [Client] and the
    module-level [get]/[search]) together with the properties its
    specification states about them.

    Conventions of the embedding.
    - A JavaScript string is a [string] holding the UTF-8 bytes of its text.
    - The result of [parseInt] is a [number]: [Some z] for the integer [z],
      [None] for [NaN] (exact integers; the rounding of doubles beyond 2^53
      is not modelled).
    - An object filled by dynamic assignment ([this[k] = v]) is a
      [gmap string JsValue]; reading a property that was never written
      gives [VUndef], as in JavaScript.
    - An upstream JSON object is the list of its own properties in
      enumeration order.
    - A promise is modelled by its settlement; the requests handed to the
      transport are recorded in a log that every operation threads. Calls
      are sequential: one has settled before the next is made.
    - A field declared without an initialiser emits no code; the
      initialiser of [TVShow._episodes] runs when [super(obj)] returns.
    - Attribute names are ordinary property names: [__proto__] and the
      names of the members of [Object.prototype], which [transTable[attr]]
      would find, are outside the model; a statement about an arbitrary
      attribute name asks for [plain_names]. *)

From Stdlib Require Import ZArith Ascii String List DecimalString.
From Stdlib Require Import Decimal DecimalPos DecimalZ Lia.
From stdpp Require Import base option list strings gmap.

Local Open Scope string_scope.
Local Open Scope Z_scope.

(** ** JavaScript strings *)

Module JsString.

Definition is_digit (c : ascii) : bool :=
  let n := nat_of_ascii c in (48 <=? n)%nat && (n <=? 57)%nat.

Definition digit_val (c : ascii) : Z := Z.of_nat (nat_of_ascii c) - 48.

Definition is_upper (c : ascii) : bool :=
  let n := nat_of_ascii c in (65 <=? n)%nat && (n <=? 90)%nat.

Definition lower_char (c : ascii) : ascii :=
  if is_upper c then ascii_of_nat (nat_of_ascii c + 32) else c.

(** [String.prototype.toLowerCase] on the ASCII letters; the attribute names
    of the upstream service are ASCII identifiers, other bytes are kept. *)
Fixpoint toLowerCase (s : string) : string :=
  match s with
  | EmptyString => EmptyString
  | String c r => String (lower_char c) (toLowerCase r)
  end.

(** The UTF-8 bytes of U+2013 EN DASH. *)
Definition en_dash : string :=
  String "226"%char (String "128"%char (String "147"%char EmptyString)).

Fixpoint starts_with (p s : string) : bool :=
  match p, s with
  | EmptyString, _ => true
  | String a p', String b s' => Ascii.eqb a b && starts_with p' s'
  | String _ _, EmptyString => false
  end.

(** One JavaScript white space or line terminator (StrWhiteSpaceChar) at
    the head of [s] is removed: [Some rest], or [None] when [s] does not
    start with one. *)
Definition strip_one_space (s : string) : option string :=
  match s with
  | String a r1 =>
    let n := nat_of_ascii a in
    if ((9 <=? n)%nat && (n <=? 13)%nat) || (n =? 32)%nat then Some r1
    else match r1 with
    | String b r2 =>
      let m := nat_of_ascii b in
      if (n =? 194)%nat && (m =? 160)%nat then Some r2
      else match r2 with
      | String c r3 =>
        let k := nat_of_ascii c in
        if (n =? 225)%nat && (m =? 154)%nat && (k =? 128)%nat then Some r3
        else if (n =? 226)%nat && (m =? 128)%nat &&
                (((128 <=? k)%nat && (k <=? 138)%nat) ||
                 (k =? 168)%nat || (k =? 169)%nat || (k =? 175)%nat)
             then Some r3
        else if (n =? 226)%nat && (m =? 129)%nat && (k =? 159)%nat then Some r3
        else if (n =? 227)%nat && (m =? 128)%nat && (k =? 128)%nat then Some r3
        else if (n =? 239)%nat && (m =? 187)%nat && (k =? 191)%nat then Some r3
        else None
      | EmptyString => None
      end
    | EmptyString => None
    end
  | EmptyString => None
  end.

(** Leading white space is dropped; [fuel] bounds the number of characters
    removed and [String.length s] always suffices. *)
Fixpoint trim_start_fuel (fuel : nat) (s : string) : string :=
  match fuel with
  | O => s
  | S fuel' =>
    match strip_one_space s with
    | Some r => trim_start_fuel fuel' r
    | None => s
    end
  end.

Definition trimStart (s : string) : string :=
  trim_start_fuel (String.length s) s.

(** The digits at the head of [s], read in base ten onto [acc]; the flag
    tells whether at least one digit was read. *)
Fixpoint read_digits (s : string) (seen : bool) (acc : Z) : bool * Z :=
  match s with
  | String c r =>
    if is_digit c then read_digits r true (10 * acc + digit_val c)
    else (seen, acc)
  | EmptyString => (seen, acc)
  end.

Definition number := option Z.

(** [parseInt(s, 10)]: white space, an optional sign, then the longest run
    of decimal digits; [NaN] when there is no digit. *)
Definition parseInt (s : string) : number :=
  let s1 := trimStart s in
  let '(neg, s2) :=
    match s1 with
    | String "-"%char r => (true, r)
    | String "+"%char r => (false, r)
    | _ => (false, s1)
    end in
  match read_digits s2 false 0 with
  | (true, v) => Some (if neg : bool then - v else v)
  | (false, _) => None
  end.

(** The four characters at the head of [s] are decimal digits: the rest. *)
Definition four_digits (s : string) : option string :=
  match s with
  | String a (String b (String c (String d r))) =>
    if is_digit a && is_digit b && is_digit c && is_digit d then Some r else None
  | _ => None
  end.

(** The pattern [\d{4}[-–](?:\d{4})?] matches at the head of [s]. The
    optional group never decides whether there is a match. *)
Definition year_range_here (s : string) : bool :=
  match four_digits s with
  | Some r => starts_with "-" r || starts_with en_dash r
  | None => false
  end.

(** [s.match(/\d{4}[-–](?:\d{4})?/)] is not null: the pattern is not
    anchored, it may match anywhere in [s]. *)
Fixpoint year_range_match (s : string) : bool :=
  year_range_here s ||
  match s with
  | String _ r => year_range_match r
  | EmptyString => false
  end.

(** [s.split("-")]: the pieces of [s] between hyphens, never empty. *)
Fixpoint split_hyphen (s : string) : list string :=
  match s with
  | EmptyString => [EmptyString]
  | String c r =>
    if Ascii.eqb c "-"%char then EmptyString :: split_hyphen r
    else match split_hyphen r with
         | p :: ps => String c p :: ps
         | [] => [String c EmptyString]
         end
  end.

(** [String(n)] for an integer [n]. *)
Definition of_Z (n : Z) : string := NilZero.string_of_int (Z.to_int n).

(** [String(n)] for a number. *)
Definition of_number (n : number) : string :=
  match n with Some z => of_Z z | None => "NaN" end.

(** The number of code points of a well-formed UTF-8 string: its bytes
    that are not continuation bytes. *)
Fixpoint code_points (s : string) : nat :=
  match s with
  | EmptyString => O
  | String c r =>
    let n := nat_of_ascii c in
    if (128 <=? n)%nat && (n <? 192)%nat then code_points r
    else S (code_points r)
  end.

End JsString.

(** ** Upstream payloads

    The declarations of [./interfaces] ([OmdbGetResponse], [OmdbEpisode],
    [OmdbTvshow], [OmdbSearchResult], [OmdbSearch], [OmdbSeason],
    [OmdbError]) are not part of the sources; the shapes below follow the
    description of the upstream responses in the specification. *)

(** Modelled from the spec: an entry of the [Ratings] list of an item
    payload, a [{Source, Value}] pair ([OmdbRating] of [./interfaces]). *)
Record OmdbRating := { Source : string; Value : string }.

(** Modelled from the spec: the value of an attribute of an item payload;
    the upstream service reports every attribute as a string, except the
    [Ratings] list. *)
Inductive OmdbValue :=
| OStr (s : string)
| ORatings (l : list OmdbRating).

(** Modelled from the spec: an item payload ([OmdbGetResponse],
    [OmdbEpisode], [OmdbTvshow], [OmdbSearchResult] or [OmdbError] of
    [./interfaces]), as the list of its own properties in enumeration
    order. *)
Definition OmdbObject := list (string * OmdbValue).

Definition getOwnPropertyNames {A} (obj : list (string * A)) : list string :=
  obj.*1.

(** [obj[attr]]: [None] is [undefined]. *)
Fixpoint prop {A} (obj : list (string * A)) (attr : string) : option A :=
  match obj with
  | [] => None
  | (k, v) :: rest => if decide (k = attr) then Some v else prop rest attr
  end.

Definition hasOwnProperty {A} (obj : list (string * A)) (attr : string) : bool :=
  bool_decide (is_Some (prop obj attr)).

Module OmdbSeason.
(** Modelled from the spec: the answer to a season request ([OmdbSeason] or
    [OmdbError] of [./interfaces]): a [Season] string and an [Episodes]
    mapping keyed by ordinal, or a [Response] flag and an [Error] string;
    a property that is [None] is absent. *)
Record t := {
  Season : option string;
  Episodes : option (list (string * OmdbObject));
  Response : option string;
  Error : option string
}.
End OmdbSeason.

Module OmdbSearch.
(** Modelled from the spec: the answer to a search ([OmdbSearch] or
    [OmdbError] of [./interfaces]): a [Search] list and a [totalResults]
    string, or a [Response] flag and an [Error] string; a property that is
    [None] is absent. *)
Record t := {
  Search : option (list OmdbObject);
  totalResults : option string;
  Response : option string;
  Error : option string
}.
End OmdbSearch.

(** ** Errors, completions and promises *)

Inductive JsError :=
| ImdbError (message : option string)
| TypeError (message : string)
| RequestError.

(** What evaluating an expression gives: a value, or a thrown error. *)
Inductive Completion (A : Type) :=
| Normal (a : A)
| Throw (e : JsError).
Arguments Normal {A} a.
Arguments Throw {A} e.

Definition cbind {A B} (c : Completion A) (k : A -> Completion B) : Completion B :=
  match c with
  | Normal a => k a
  | Throw e => Throw e
  end.

Declare Scope completion_scope.
Delimit Scope completion_scope with completion.
Notation "x <- c ;; k" := (cbind c (fun x => k))
  (at level 100, c at next level, right associativity) : completion_scope.

(** A promise, by the way it settles. *)
Inductive Promise (A : Type) :=
| Fulfilled (a : A)
| Rejected (e : JsError).
Arguments Fulfilled {A} a.
Arguments Rejected {A} e.

(** [.then(callback)] on a settled promise: a callback that throws rejects. *)
Definition settle {A} (c : Completion A) : Promise A :=
  match c with
  | Normal a => Fulfilled a
  | Throw e => Rejected e
  end.

(** ** The built-in functions the code calls

    [parseFloat] and the [Date] constructor are implementation-defined
    functions of the JavaScript engine; the development is parametric in
    them. [None] stands for [NaN], respectively for an invalid date. *)

Class Runtime := {
  float : Type;
  float_zero : float;
  parseFloat : string -> option float;
  float_toString : float -> string;
  Date_parse : string -> option Z;
  Date_toString : Z -> string
}.

(** ** Options and requests *)

(** An optional property of an options object: absent, or present with a
    value that may be [undefined]. *)
Inductive slot (A : Type) :=
| Absent
| Present (v : option A).
Arguments Absent {A}.
Arguments Present {A} v.

Record MovieOpts := {
apiKey : slot string;
timeout : slot Z
}.

Module RequestType.
Inductive t := movie | series | episode | game.

Definition toString (x : t) : string :=
    match x with
    | movie => "movie"
    | series => "series"
    | episode => "episode"
    | game => "game"
    end.
End RequestType.

Module MovieRequest.
(** An absent property and one that is [undefined] read the same. *)
Record t := {
  name : option string;
  id : option string;
  year : option Z;
  short_plot : option bool
}.
End MovieRequest.

Module SearchRequest.
Record t := {
  name : string;
  reqtype : option RequestType.t;
  year : option Z
}.
End SearchRequest.

Definition omdbapi : string := "https://www.omdbapi.com".

Definition transTable (attr : string) : option string :=
  if decide (attr = "Genre") then Some "genres"
  else if decide (attr = "Language") then Some "languages"
  else if decide (attr = "imdbRating") then Some "rating"
  else if decide (attr = "imdbVotes") then Some "votes"
  else None.

(** ** The type guards of [./interfaces]

    [isError], [isMovie], [isGame], [isTvshow] and [isEpisode] are imported
    from [./interfaces], which is not part of the sources: the development
    is parametric in them. [isError] is applied to the three kinds of
    response, hence a class. *)

Class IsError (A : Type) := isError : A -> bool.

Class Guards := {
  isMovie : OmdbObject -> bool;
  isGame : OmdbObject -> bool;
  isTvshow : OmdbObject -> bool;
  isEpisode : OmdbObject -> bool
}.

(** ** Values and objects *)

(** An entry of [Movie.ratings]: [{source, value}]. *)
Record Rating := { source : option string; value : option string }.

(** An element of an array of ratings: an upstream object copied through,
    or an entry the constructor pushed. *)
Inductive RatingElt :=
| RawRating (r : OmdbRating)
| NewRating (r : Rating).

Fixpoint join_comma (l : list string) : string :=
  match l with
  | [] => ""
  | [s] => s
  | s :: rest => s ++ "," ++ join_comma rest
  end.

(** [String(v)] for an upstream value; an array of objects prints each
    element as [[object Object]]. *)
Definition OmdbValue_toString (v : option OmdbValue) : string :=
  match v with
  | None => "undefined"
  | Some (OStr s) => s
  | Some (ORatings l) => join_comma ((fun _ => "[object Object]") <$> l)
  end.

Definition option_toString (v : option string) : string :=
  match v with
  | None => "undefined"
  | Some s => s
  end.

(** A string is truthy when it is defined and not empty. *)
Definition truthy_string (v : option string) : bool :=
  match v with
  | Some (String _ _) => true
  | _ => false
  end.

Section Model.
Context `{RT : Runtime}.

Inductive JsValue :=
| VUndef
| VStr (s : string)
| VNum (n : JsString.number)
| VFloat (x : float)
| VBool (b : bool)
| VDate (t : Z)
| VArr (l : list RatingElt).

(** An object whose properties are assigned dynamically is a
    [gmap string JsValue]. *)

(** [this.k]: an absent property reads [undefined]. *)
Definition get_prop (this : gmap string JsValue) (k : string) : JsValue :=
  default VUndef (this !! k).

Definition of_omdb (v : option OmdbValue) : JsValue :=
  match v with
  | None => VUndef
  | Some (OStr s) => VStr s
  | Some (ORatings l) => VArr (RawRating <$> l)
  end.

Definition JsValue_toString (v : JsValue) : string :=
  match v with
  | VUndef => "undefined"
  | VStr s => s
  | VNum n => JsString.of_number n
  | VFloat x => float_toString x
  | VBool b => if b then "true" else "false"
  | VDate t => Date_toString t
  | VArr l => join_comma ((fun _ => "[object Object]") <$> l)
  end.

(** [v !== "movie"] and the like: strict inequality with a string. *)
Definition strict_ne_string (v : JsValue) (s : string) : bool :=
  match v with
  | VStr s' => negb (String.eqb s' s)
  | _ => true
  end.

(** [new Date(v)] followed by [isNaN(val.getTime())]: [None] when the
    date is invalid. [new Date(undefined)] is always invalid. *)
Definition Date_new (v : option OmdbValue) : option Z :=
  match v with
  | None => None
  | Some _ => Date_parse (OmdbValue_toString v)
  end.

(** *** [class Movie] *)

(** The elements [for (const rating of obj[attr])] visits, as the entries
    [{source: rating.Source, value: rating.Value}] to push. Iterating a
    string visits its code points, none of which has a [Source]. *)
Definition ratings_to_push (v : option OmdbValue) : Completion (list Rating) :=
  match v with
  | Some (ORatings l) =>
    Normal ((fun r => {| source := Some (Source r); value := Some (Value r) |}) <$> l)
  | Some (OStr s) =>
    Normal (replicate (JsString.code_points s) {| source := None; value := None |})
  | None => Throw (TypeError "obj[attr] is not iterable")
  end.

(** [this.ratings.push(r)] for each [r] in turn. The first push fails when
    [this.ratings] no longer holds an array. *)
Definition push_ratings (this : gmap string JsValue) (rs : list Rating)
  : Completion (gmap string JsValue) :=
  match rs with
  | [] => Normal this
  | _ :: _ =>
    match this !! "ratings" with
    | Some (VArr l) => Normal (<["ratings" := VArr (l ++ (NewRating <$> rs))]> this)
    | _ => Throw (TypeError "this.ratings.push is not a function")
    end
  end.

(** The body of the loop of the constructor, for one attribute name. *)
Definition Movie_attr (obj : OmdbObject) (this : gmap string JsValue) (attr : string)
  : Completion (gmap string JsValue) :=
  if decide (attr = "Year") then
    let this := <["_yearData" := of_omdb (prop obj attr)]> this in
    match prop obj attr with
    | Some (OStr y) =>
      if JsString.year_range_match y then Normal this
      else
        match JsString.parseInt y with
        | None => Throw (TypeError "invalid year")
        | Some val => Normal (<[JsString.toLowerCase attr := VNum (Some val)]> this)
        end
    | _ => Throw (TypeError "obj[attr].match is not a function")
    end
  else if decide (attr = "Released") then
    match Date_new (prop obj attr) with
    | None => Normal (<["released" := VUndef]> this)
    | Some val => Normal (<["released" := VDate val]> this)
    end
  else if decide (attr = "DVD") then
    match Date_new (prop obj attr) with
    | None => Normal (<["dvd" := VUndef]> this)
    | Some val => Normal (<["dvd" := VDate val]> this)
    end
  else if decide (attr = "imdbRating") then
    let key := default "undefined" (transTable attr) in
    let val := parseFloat (OmdbValue_toString (prop obj attr)) in
    Normal (<[key := VFloat (default float_zero val)]> this)
  else
    match transTable attr with
    | Some key => Normal (<[key := of_omdb (prop obj attr)]> this)
    | None =>
      if decide (attr = "Ratings") then
        (rs <- ratings_to_push (prop obj attr) ;; push_ratings this rs)%completion
      else Normal (<[JsString.toLowerCase attr := of_omdb (prop obj attr)]> this)
    end.

(** [for (const attr of names) body], stopping at the first throw. *)
Fixpoint for_of {A S} (body : S -> A -> Completion S) (l : list A) (st : S)
  : Completion S :=
  match l with
  | [] => Normal st
  | a :: rest => (st' <- body st a ;; for_of body rest st')%completion
  end.

Definition Movie_new (obj : OmdbObject) : Completion (gmap string JsValue) :=
  (this <- for_of (Movie_attr obj) (getOwnPropertyNames obj) {["ratings" := VArr []]} ;;
   let this := <["name" := get_prop this "title"]> this in
   let this := <["series" := VBool (strict_ne_string (get_prop this "type") "movie")]> this in
   Normal (<["imdburl" :=
              VStr ("https://www.imdb.com/title/" ++ JsValue_toString (get_prop this "imdbid"))]>
           this))%completion.

(** *** [class Episode extends Movie] *)

Definition Episode_new (obj : OmdbObject) (season : option JsString.number)
  : Completion (gmap string JsValue) :=
  (this <- Movie_new obj ;;
   this <- match season with
           | Some season => Normal (<["season" := VNum season]> this)
           | None =>
             match JsString.parseInt (OmdbValue_toString (prop obj "Season")) with
             | None => Throw (TypeError "invalid season")
             | Some n => Normal (<["season" := VNum (Some n)]> this)
             end
           end ;;
   if hasOwnProperty obj "Episode" then
     match JsString.parseInt (OmdbValue_toString (prop obj "Episode")) with
     | None => Throw (TypeError "invalid episode")
     | Some n => Normal (<["episode" := VNum (Some n)]> this)
     end
   else Normal this)%completion.

(** *** [class Game extends Movie] *)

Definition Game_new (obj : OmdbObject) : Completion (gmap string JsValue) :=
  Movie_new obj.

(** *** Requests to the transport *)

Record KyRequest := {
  url : string;
  searchParams : list (string * JsValue);
  headers : list (string * string);
  req_timeout : option Z
}.

Definition of_apiKey (k : slot string) : JsValue :=
  match k with
  | Present (Some key) => VStr key
  | _ => VUndef
  end.

(** [timeout: undefined], then [if ("timeout" in opts) reqopts.timeout =
    opts.timeout]. *)
Definition timeout_of (opts : MovieOpts) : option Z :=
  match timeout opts with
  | Present t => t
  | Absent => None
  end.

(** *** [class TVShow extends Movie]

    [props] holds the properties assigned dynamically by the [Movie]
    constructor; the members the [TVShow] constructor and its field
    initialiser assign afterwards are the other fields, and [props] keeps
    no property of their names. *)

Record TVShow := {
  props : gmap string JsValue;
  start_year : JsString.number;
  end_year : option Z;
  totalseasons : JsString.number;
  _episodes : list (gmap string JsValue);
  opts : MovieOpts
}.

Definition TVShow_members : list string :=
  ["start_year"; "end_year"; "totalseasons"; "_episodes"; "opts"].

(** [parseInt(x, 10) ? parseInt(x, 10) : undefined] *)
Definition nonzero_or_undefined (n : JsString.number) : option Z :=
  match n with
  | Some z => if Z.eqb z 0 then None else Some z
  | None => None
  end.

Definition TVShow_new (obj : OmdbObject) (opts : MovieOpts) : Completion TVShow :=
  (this <- Movie_new obj ;;
   years <- match this !! "_yearData" with
            | Some (VStr yearData) => Normal (JsString.split_hyphen yearData)
            | _ => Throw (TypeError "this._yearData.split is not a function")
            end ;;
   Normal {|
     props := foldr delete this TVShow_members;
     start_year := JsString.parseInt (option_toString (years !! 0%nat));
     end_year := nonzero_or_undefined (JsString.parseInt (option_toString (years !! 1%nat)));
     totalseasons := JsString.parseInt (OmdbValue_toString (prop obj "totalSeasons"));
     _episodes := [];
     opts := opts
   |})%completion.

Definition set_episodes (tvShow : TVShow) (eps : list (gmap string JsValue)) : TVShow :=
  {| props := props tvShow;
     start_year := start_year tvShow;
     end_year := end_year tvShow;
     totalseasons := totalseasons tvShow;
     _episodes := eps;
     opts := opts tvShow |}.

(** *** The transport

    [ky(omdbapi, reqopts).json()], at the type the call site gives its
    result. The answer may depend on the requests made before; [None] is a
    request that fails (network error, status, timeout). *)

Class Transport := {
  ky_item : list KyRequest -> KyRequest -> option OmdbObject;
  ky_search : list KyRequest -> KyRequest -> option OmdbSearch.t;
  ky_season : list KyRequest -> KyRequest -> option OmdbSeason.t
}.

(** A computation that makes requests: from the log of the requests made
    so far to its result and the extended log. *)
Definition IO (A : Type) : Type := list KyRequest -> A * list KyRequest.

Definition ret {A} (a : A) : IO A := fun log => (a, log).

Definition bind {A B} (m : IO A) (k : A -> IO B) : IO B :=
  fun log => let '(a, log') := m log in k a log'.

Definition ky {A} (answer : list KyRequest -> KyRequest -> option A) (reqopts : KyRequest)
  : IO (option A) :=
  fun log => (answer log reqopts, (log ++ [reqopts])%list).

Fixpoint mapM {A B} (f : A -> IO B) (l : list A) : IO (list B) :=
  match l with
  | [] => ret []
  | a :: rest =>
    bind (f a) (fun b => bind (mapM f rest) (fun bs => ret (b :: bs)))
  end.

(** [Promise.all]: the payloads in the order of the requests, or [None]
    when some request fails. *)
Fixpoint Promise_all {A} (l : list (option A)) : option (list A) :=
  match l with
  | [] => Some []
  | None :: _ => None
  | Some a :: rest =>
    match Promise_all rest with
    | Some r => Some (a :: r)
    | None => None
    end
  end.

Context `{EI : IsError OmdbObject, ES : IsError OmdbSearch.t, EN : IsError OmdbSeason.t}.
Context `{G : Guards, T : Transport}.

(** *** [TVShow.episodes] *)

(** The season numbers [i = 1; i <= totalseasons; i++]. *)
Definition season_numbers (totalseasons : JsString.number) : list Z :=
  match totalseasons with
  | Some n => Z.of_nat <$> seq 1 (Z.to_nat n)
  | None => []
  end.

Definition season_reqopts (tvShow : TVShow) (i : Z) : KyRequest :=
  {| url := omdbapi;
     searchParams := [("Season", VNum (Some i));
                      ("apikey", of_apiKey (apiKey (opts tvShow)));
                      ("i", get_prop (props tvShow) "imdbid");
                      ("r", VStr "json")];
     headers := [("Content-Type", "application/json")];
     req_timeout := timeout_of (opts tvShow) |}.

(** The body of the outer loop of the callback, for one season payload. *)
Definition season_episodes (eps : list (gmap string JsValue)) (datum : OmdbSeason.t)
  : Completion (list (gmap string JsValue)) :=
  if isError datum then Throw (ImdbError (OmdbSeason.Error datum))
  else
    let season := JsString.parseInt (option_toString (OmdbSeason.Season datum)) in
    match OmdbSeason.Episodes datum with
    | None => Throw (TypeError "Cannot convert undefined or null to object")
    | Some episodes =>
      for_of (fun eps ep =>
                match prop episodes ep with
                | Some entry =>
                  (e <- Episode_new entry (Some season) ;; Normal (eps ++ [e])%list)%completion
                | None => Throw (TypeError "Cannot convert undefined or null to object")
                end)
             (getOwnPropertyNames episodes) eps
    end.

(** The callback of [Promise.all(funcs).then]. *)
Definition episodes_then (epData : list OmdbSeason.t)
  : Completion (list (gmap string JsValue)) :=
  for_of season_episodes epData [].

(** [episodes()] returns the promise and, once it has settled, leaves the
    show in the state returned with it. *)
Definition TVShow_episodes (tvShow : TVShow)
  : IO (Promise (list (gmap string JsValue)) * TVShow) :=
  if negb (Nat.eqb (length (_episodes tvShow)) 0) then
    ret (Fulfilled (_episodes tvShow), tvShow)
  else
    bind (mapM (fun i => ky ky_season (season_reqopts tvShow i))
               (season_numbers (totalseasons tvShow)))
         (fun funcs =>
            match Promise_all funcs with
            | None => ret (Rejected RequestError, tvShow)
            | Some epData =>
              match episodes_then epData with
              | Normal eps => ret (Fulfilled eps, set_episodes tvShow eps)
              | Throw e => ret (Rejected e, tvShow)
              end
            end).

(** *** [class SearchResult] *)

Definition SearchResult_attr (obj : OmdbObject) (this : gmap string JsValue) (attr : string)
  : gmap string JsValue :=
  if decide (attr = "Year") then
    <[JsString.toLowerCase attr :=
        VNum (JsString.parseInt (OmdbValue_toString (prop obj attr)))]> this
  else <[JsString.toLowerCase attr := of_omdb (prop obj attr)]> this.

Definition SearchResult_new (obj : OmdbObject) : gmap string JsValue :=
  let this := foldl (SearchResult_attr obj) ∅ (getOwnPropertyNames obj) in
  <["name" := get_prop this "title"]> this.

(** *** [class SearchResults]

    The constructor copies each own property of the payload; with the
    payload of [OmdbSearch] these are [Search], [totalResults], [Response]
    and [Error], those that are present. [totalresults] is [None] while
    the property was never assigned. *)

Record SearchResults := {
  results : list (gmap string JsValue);
  totalresults : option JsString.number;
  response : option string;
  error : option string;
  page : Z;
  sr_opts : MovieOpts;
  req : SearchRequest.t
}.

Definition SearchResults_new (obj : OmdbSearch.t) (page : Z) (opts : MovieOpts)
    (req : SearchRequest.t) : SearchResults :=
  {| page := page;
     req := req;
     sr_opts := opts;
     results :=
       match OmdbSearch.Search obj with
       | Some l => SearchResult_new <$> l
       | None => []
       end;
     totalresults := JsString.parseInt <$> OmdbSearch.totalResults obj;
     response := OmdbSearch.Response obj;
     error := OmdbSearch.Error obj |}.

(** *** [reqtoqueryobj] *)

Definition reqtoqueryobj (req : SearchRequest.t) (apikey : JsValue) (page : Z)
  : list (string * JsValue) :=
  let r := [("apikey", VStr (JsValue_toString apikey));
            ("s", VStr (SearchRequest.name req));
            ("page", VStr (JsString.of_Z page));
            ("r", VStr "json")] in
  let r :=
    match SearchRequest.year req with
    | Some y => (r ++ [("y", VStr (JsString.of_Z y))])%list
    | None => r
    end in
  match SearchRequest.reqtype req with
  | Some t => (r ++ [("type", VStr (RequestType.toString t))])%list
  | None => r
  end.

(** *** [class Client] *)

Record Client := { client_opts : MovieOpts }.

Definition Client_new (opts : MovieOpts) : Completion Client :=
  match apiKey opts with
  | Absent => Throw (ImdbError (Some "Missing api key in opts"))
  | Present _ => Normal {| client_opts := opts |}
  end.

(** One property of [{ ...base, ...override }]. *)
Definition spread {A} (base override : slot A) : slot A :=
  match override with
  | Present v => Present v
  | Absent => base
  end.

Definition mergeOpts (this : Client) (opts : option MovieOpts) : MovieOpts :=
  match opts with
  | Some opts =>
    {| apiKey := spread (apiKey (client_opts this)) (apiKey opts);
       timeout := spread (timeout (client_opts this)) (timeout opts) |}
  | None =>
    {| apiKey := apiKey (client_opts this); timeout := timeout (client_opts this) |}
  end.

(** What [Client.get] resolves to. *)
Inductive Item :=
| IMovie (m : gmap string JsValue)
| IGame (g : gmap string JsValue)
| ITVShow (t : TVShow)
| IEpisode (e : gmap string JsValue).

Definition fmap_completion {A B} (f : A -> B) (c : Completion A) : Completion B :=
  (a <- c ;; Normal (f a))%completion.

(** The callback of [Client.get]. *)
Definition get_then (req : MovieRequest.t) (opts : MovieOpts) (data : OmdbObject)
  : Completion Item :=
  if isError data then
    Throw (ImdbError (Some (OmdbValue_toString (prop data "Error") ++ ": " ++
             (if truthy_string (MovieRequest.name req)
              then option_toString (MovieRequest.name req)
              else option_toString (MovieRequest.id req)))))
  else if isMovie data then fmap_completion IMovie (Movie_new data)
  else if isGame data then fmap_completion IGame (Game_new data)
  else if isTvshow data then fmap_completion ITVShow (TVShow_new data opts)
  else if isEpisode data then fmap_completion IEpisode (Episode_new data None)
  else Throw (ImdbError (Some ("type: '" ++ OmdbValue_toString (prop data "Type") ++
                               "' is not valid"))).

(** [promise.then(callback)] for a request: a failed request rejects. *)
Definition then_ {A B} (data : option A) (callback : A -> Completion B) : Promise B :=
  match data with
  | Some d => settle (callback d)
  | None => Rejected RequestError
  end.

Definition Client_get (this : Client) (req : MovieRequest.t) (opts : option MovieOpts)
  : IO (Promise Item) :=
  let opts := mergeOpts this opts in
  let qs := [("apikey", of_apiKey (apiKey opts));
             ("plot", VStr (if default false (MovieRequest.short_plot req)
                            then "short" else "full"));
             ("r", VStr "json")] in
  let qs :=
    match MovieRequest.year req with
    | Some y => (qs ++ [("y", VStr (JsString.of_Z y))])%list
    | None => qs
    end in
  let send (qs : list (string * JsValue)) : IO (Promise Item) :=
    let reqopts := {| url := omdbapi;
                      searchParams := qs;
                      headers := [("Content-Type", "application/json")];
                      req_timeout := timeout_of opts |} in
    bind (ky ky_item reqopts) (fun data => ret (then_ data (get_then req opts))) in
  if truthy_string (MovieRequest.name req) then
    send (qs ++ [("t", VStr (option_toString (MovieRequest.name req)))])%list
  else if truthy_string (MovieRequest.id req) then
    send (qs ++ [("i", VStr (option_toString (MovieRequest.id req)))])%list
  else ret (Rejected (ImdbError (Some "Missing one of req.id or req.name"))).

(** The callback of [Client.search]. *)
Definition search_then (req : SearchRequest.t) (page : Z) (opts : MovieOpts)
    (data : OmdbSearch.t) : Completion SearchResults :=
  if isError data then
    Throw (ImdbError (Some (option_toString (OmdbSearch.Error data) ++ ": " ++
                            SearchRequest.name req)))
  else Normal (SearchResults_new data page opts req).

Definition Client_search (this : Client) (req : SearchRequest.t) (page : option Z)
    (opts : option MovieOpts) : IO (Promise SearchResults) :=
  let opts := mergeOpts this opts in
  let page := default 1 page in
  let qs := reqtoqueryobj req (of_apiKey (apiKey opts)) page in
  let reqopts := {| url := omdbapi;
                    searchParams := qs;
                    headers := [("Content-Type", "application/json")];
                    req_timeout := timeout_of opts |} in
  bind (ky ky_search reqopts) (fun data => ret (then_ data (search_then req page opts))).

(** *** The module-level [get] and [search]

    Calling them either throws or returns a promise. *)

Definition get (req : MovieRequest.t) (opts : MovieOpts)
  : IO (Completion (Promise Item)) :=
  match Client_new opts with
  | Normal client => bind (Client_get client req None) (fun p => ret (Normal p))
  | Throw e => ret (Normal (Rejected e))
  end.

Definition search (req : SearchRequest.t) (opts : MovieOpts) (page : option Z)
  : IO (Completion (Promise SearchResults)) :=
  match Client_new opts with
  | Normal client => bind (Client_search client req page None) (fun p => ret (Normal p))
  | Throw e => ret (Throw e)
  end.

(** [SearchResults.next] *)
Definition SearchResults_next (this : SearchResults)
  : IO (Completion (Promise SearchResults)) :=
  search (req this) (sr_opts this) (Some (page this + 1)).
End Model.

(** ** The classifier of the specification

    The type guards of [./interfaces] are parameters of the model; the
    definitions below instantiate them where the model is evaluated on
    concrete inputs. *)

(** Modelled from the spec: the [Type] tag of an item payload is [tag]
    ([isMovie], [isGame], [isTvshow], [isEpisode] of [./interfaces]). *)
Definition Type_is (tag : string) (obj : OmdbObject) : bool :=
  match prop obj "Type" with
  | Some (OStr t) => String.eqb t tag
  | _ => false
  end.

(** Modelled from the spec: the [Response] flag of a payload is false
    ([isError] of [./interfaces]). *)
Definition Response_is_false (r : option string) : bool :=
  match r with
  | Some flag => String.eqb flag "False"
  | None => false
  end.

(** Modelled from the spec: [isError] of [./interfaces] on an item
    payload. *)
Definition spec_isError_item : IsError OmdbObject :=
  fun obj =>
    match prop obj "Response" with
    | Some (OStr flag) => String.eqb flag "False"
    | _ => false
    end.

(** Modelled from the spec: [isError] of [./interfaces] on the answer to a
    search. *)
Definition spec_isError_search : IsError OmdbSearch.t :=
  fun obj => Response_is_false (OmdbSearch.Response obj).

(** Modelled from the spec: [isError] of [./interfaces] on the answer to a
    season request. *)
Definition spec_isError_season : IsError OmdbSeason.t :=
  fun obj => Response_is_false (OmdbSeason.Response obj).

(** Modelled from the spec: the guards [isMovie], [isGame], [isTvshow] and
    [isEpisode] of [./interfaces], by the [Type] tag. *)
Definition spec_guards : Guards :=
  {| isMovie := Type_is "movie";
     isGame := Type_is "game";
     isTvshow := Type_is "series";
     isEpisode := Type_is "episode" |}.

(** ** Concrete inputs

    A stand-in for the engine, kept as small as possible: the string
    [N/A], by which the upstream service marks a missing value, is neither
    a number nor a date; any other string is read as zero, respectively as
    the epoch. It only serves to evaluate the model on the inputs below. *)

Definition example_parse (s : string) : option Z :=
  if String.eqb s "N/A" then None else Some 0.

Definition example_runtime : Runtime :=
  {| float := Z;
     float_zero := 0;
     parseFloat := example_parse;
     float_toString := fun _ => "0";
     Date_parse := example_parse;
     Date_toString := fun _ => "1970-01-01T00:00:00.000Z" |}.

Section Examples.
#[local] Existing Instance example_runtime.

(** The season number a request asks for. *)
Definition Season_param (r : KyRequest) : option Z :=
  match prop (searchParams r) "Season" with
  | Some (VNum n) => n
  | _ => None
  end.

(** A transport that answers every item request with [item], every search
    with [found], and the request for season [i] with [seasons i]. *)
Definition example_transport (item : option OmdbObject) (found : option OmdbSearch.t)
    (seasons : Z -> option OmdbSeason.t) : Transport :=
  {| ky_item := fun _ _ => item;
     ky_search := fun _ _ => found;
     ky_season := fun _ r =>
       match Season_param r with
       | Some i => seasons i
       | None => None
       end |}.

Definition example_opts : MovieOpts :=
  {| apiKey := Present (Some "k"); timeout := Absent |}.

Definition example_client : Client := {| client_opts := example_opts |}.

Definition example_movie : OmdbObject :=
  [("Title", OStr "Alien"); ("Year", OStr "1979"); ("Released", OStr "N/A");
   ("DVD", OStr "1999"); ("imdbRating", OStr "8"); ("imdbID", OStr "tt0078748");
   ("Type", OStr "movie"); ("Response", OStr "True")].

Definition example_series (yearData : string) : OmdbObject :=
  [("Title", OStr "Show"); ("Year", OStr yearData); ("imdbID", OStr "tt1");
   ("Type", OStr "series"); ("totalSeasons", OStr "2"); ("Response", OStr "True")].

(** A show as [TVShow_new] builds it, with [n] seasons and nothing cached. *)
Definition example_show (n : Z) : TVShow :=
  {| props := {["imdbid" := VStr "tt1"]};
     start_year := Some 2015;
     end_year := None;
     totalseasons := Some n;
     _episodes := [];
     opts := example_opts |}.

Definition example_entry (title number : string) : OmdbObject :=
  [("Title", OStr title); ("Episode", OStr number); ("imdbID", OStr "tt2")].

Definition example_season (season : string) (entries : list (string * OmdbObject))
  : OmdbSeason.t :=
  {| OmdbSeason.Season := Some season;
     OmdbSeason.Episodes := Some entries;
     OmdbSeason.Response := Some "True";
     OmdbSeason.Error := None |}.

Definition example_season_error (message : string) : OmdbSeason.t :=
  {| OmdbSeason.Season := None;
     OmdbSeason.Episodes := None;
     OmdbSeason.Response := Some "False";
     OmdbSeason.Error := Some message |}.

(** Upstream answers the request for season 1 with a payload that says
    season 7. *)
Definition seasons_mislabelled (i : Z) : option OmdbSeason.t :=
  if Z.eqb i 1 then Some (example_season "7" [("0", example_entry "Pilot" "1")])
  else None.

(** Season 1 lists an episode whose number does not parse; season 2 is an
    error payload. *)
Definition seasons_bad_then_error (i : Z) : option OmdbSeason.t :=
  if Z.eqb i 1 then Some (example_season "1" [("0", example_entry "Pilot" "N/A")])
  else Some (example_season_error "Series or season not found!").

(** Season 1 is fine; season 2 is an error payload. *)
Definition seasons_good_then_error (i : Z) : option OmdbSeason.t :=
  if Z.eqb i 1 then Some (example_season "1" [("0", example_entry "Pilot" "1")])
  else Some (example_season_error "Series or season not found!").

(** Every season lists no episode. *)
Definition seasons_empty (i : Z) : option OmdbSeason.t :=
  Some (example_season (JsString.of_Z i) []).

(** Season [i] lists one episode. *)
Definition seasons_one_each (i : Z) : option OmdbSeason.t :=
  Some (example_season (JsString.of_Z i) [("0", example_entry "Episode" "1")]).

Definition example_found : OmdbSearch.t :=
  {| OmdbSearch.Search :=
       Some [[("Title", OStr "The Toxic Avenger"); ("Year", OStr "1984");
              ("imdbID", OStr "tt0090190"); ("Type", OStr "movie")];
             [("Title", OStr "The Toxic Avenger Part II"); ("Year", OStr "1989");
              ("imdbID", OStr "tt0098503"); ("Type", OStr "movie")]];
     OmdbSearch.totalResults := Some "25";
     OmdbSearch.Response := Some "True";
     OmdbSearch.Error := None |}.

Definition example_search_request : SearchRequest.t :=
  {| SearchRequest.name := "Toxic Avenger";
     SearchRequest.reqtype := None;
     SearchRequest.year := None |}.

Definition request_both : MovieRequest.t :=
  {| MovieRequest.name := Some "Alien";
     MovieRequest.id := Some "tt0078748";
     MovieRequest.year := None;
     MovieRequest.short_plot := None |}.

End Examples.

(** ** Vocabulary of the properties *)

(** Some character of [s] is an upper-case ASCII letter. *)
Fixpoint has_upper (s : string) : bool :=
  match s with
  | EmptyString => false
  | String c r => JsString.is_upper c || has_upper r
  end.

(** The properties the body of the loop of the [Movie] constructor may
    assign for the attribute [attr]. *)
Definition Movie_attr_writes (attr : string) : list string :=
  if decide (attr = "Year") then ["_yearData"; "year"]
  else if decide (attr = "Released") then ["released"]
  else if decide (attr = "DVD") then ["dvd"]
  else if decide (attr = "imdbRating") then ["rating"]
  else match transTable attr with
       | Some key => [key]
       | None => if decide (attr = "Ratings") then ["ratings"]
                 else [JsString.toLowerCase attr]
       end.

(** The error the [Year] branch of the constructor throws for the value
    [v], if any. *)
Definition year_error (v : OmdbValue) : option JsError :=
  match v with
  | OStr y =>
    if JsString.year_range_match y then None
    else match JsString.parseInt y with
         | None => Some (TypeError "invalid year")
         | Some _ => None
         end
  | ORatings _ => Some (TypeError "obj[attr].match is not a function")
  end.

(** The same for the [Year] of a payload; none when it has no [Year]. *)
Definition Year_error (obj : OmdbObject) : option JsError :=
  prop obj "Year" ≫= year_error.

(** The properties that are not named by lower-casing an attribute. *)
Definition special_keys : list string :=
  ["_yearData"; "rating"; "genres"; "languages"; "votes"].

(** The attribute names of a payload differ by more than letter case, as
    those of the upstream service do. *)
Definition names_distinct (obj : OmdbObject) : Prop :=
  NoDup (JsString.toLowerCase <$> getOwnPropertyNames obj).

(** The same, as a test. *)
Fixpoint distinctb (l : list string) : bool :=
  match l with
  | [] => true
  | x :: rest => forallb (fun y => negb (String.eqb x y)) rest && distinctb rest
  end.

Definition names_distinctb (obj : OmdbObject) : bool :=
  distinctb (JsString.toLowerCase <$> getOwnPropertyNames obj).

Section Vocabulary.
Context `{RT : Runtime}.

(** While the loop has the attributes [rest] to go, either [this.ratings]
    still holds an array, or nothing will be pushed to it. *)
Definition ratings_inv (rest : list string) (this : gmap string JsValue) : Prop :=
  (exists l, this !! "ratings" = Some (VArr l)) \/ "Ratings" ∉ rest.

(** [name === title] and [series === (type !== "movie")]. *)
Definition family_invariant (this : gmap string JsValue) : Prop :=
  get_prop this "name" = get_prop this "title" /\
  get_prop this "series" = VBool (strict_ne_string (get_prop this "type") "movie").

(** The answers to a series of requests made one after the other. *)
Fixpoint receive {A} (answer : list KyRequest -> KyRequest -> option A)
    (reqs : list KyRequest) (log : list KyRequest) : list (option A) :=
  match reqs with
  | [] => []
  | r :: rest => answer log r :: receive answer rest (log ++ [r])%list
  end.

(** The requests [episodes()] makes for a show: one for each season. *)
Definition season_requests (tvShow : TVShow) : list KyRequest :=
  season_reqopts tvShow <$> season_numbers (totalseasons tvShow).

(** The season an episode belongs to, as its season payload reports it. *)
Definition payload_season (datum : OmdbSeason.t) : JsValue :=
  VNum (JsString.parseInt (option_toString (OmdbSeason.Season datum))).

End Vocabulary.

Section Built.
Context `{RT : Runtime}.

(** [group] lists the episodes the callback of [episodes()] builds from the
    season payload [datum]: one for each own property of its [Episodes]
    mapping, in enumeration order, each built by the [Episode] constructor
    from the entry of that name, with the season parsed from the [Season]
    of the payload. *)
Definition built_from (datum : OmdbSeason.t) (group : list (gmap string JsValue)) : Prop :=
  exists entries,
    OmdbSeason.Episodes datum = Some entries /\
    Forall2 (fun name ep =>
               exists entry,
                 prop entries name = Some entry /\
                 Episode_new entry
                   (Some (JsString.parseInt (option_toString (OmdbSeason.Season datum)))) =
                   Normal ep)
            (getOwnPropertyNames entries) group.

End Built.

(** Every byte of [s] is an ASCII character. *)
Fixpoint is_ascii (s : string) : bool :=
  match s with
  | EmptyString => true
  | String c r => (nat_of_ascii c <? 128)%nat && is_ascii r
  end.

(** The names of the members every object inherits from
    [Object.prototype]. *)
Definition Object_prototype_names : list string :=
  ["constructor"; "__defineGetter__"; "__defineSetter__"; "hasOwnProperty";
   "__lookupGetter__"; "__lookupSetter__"; "isPrototypeOf"; "propertyIsEnumerable";
   "toString"; "valueOf"; "__proto__"; "toLocaleString"].

(** An ordinary attribute name: it is ASCII, as [JsString.toLowerCase]
    assumes; it is not the name of an inherited member, for which
    [transTable[attr]] is not [undefined]; and it is not [__proto__] once
    lower-cased, an assignment to which creates no property. *)
Definition plain_name (a : string) : bool :=
  is_ascii a
  && negb (existsb (String.eqb a) Object_prototype_names)
  && negb (String.eqb (JsString.toLowerCase a) "__proto__").

(** Every attribute name of the payload is an ordinary one. *)
Definition plain_names (obj : OmdbObject) : bool :=
  forallb plain_name (getOwnPropertyNames obj).

(** What a promise resolved to, what a completion returned; [d] otherwise. *)
Definition fulfilled_or {A} (p : Promise A) (d : A) : A :=
  match p with
  | Fulfilled a => a
  | Rejected _ => d
  end.

Definition normal_or {A} (c : Completion A) (d : A) : A :=
  match c with
  | Normal a => a
  | Throw _ => d
  end.

Definition options_without_key : MovieOpts :=
  {| apiKey := Absent; timeout := Absent |}.


(** ** Vocabulary and inputs of the further properties *)

(** The attributes the [Movie] constructor treats specially; every other
    one is copied under its lower-cased name. *)
Definition Movie_special_attrs : list string :=
  ["Year"; "Released"; "DVD"; "imdbRating"; "Genre"; "Language"; "imdbVotes"; "Ratings"].

(** The properties that something other than the copy of an attribute
    assigns. *)
Definition Movie_reserved_keys : list string :=
  ["rating"; "genres"; "languages"; "votes"; "ratings"; "name"; "series"; "imdburl"].

(** The character [c] occurs in [s]. *)
Fixpoint contains_char (c : ascii) (s : string) : bool :=
  match s with
  | EmptyString => false
  | String c' r => Ascii.eqb c' c || contains_char c r
  end.

(** [d] is the empty numeral. *)
Definition uint_is_nil (d : Decimal.uint) : bool :=
  match d with
  | Decimal.Nil => true
  | _ => false
  end.

(** Every character of [s] is a decimal digit. *)
Fixpoint all_digits (s : string) : bool :=
  match s with
  | EmptyString => true
  | String c r => JsString.is_digit c && all_digits r
  end.

(** The number of entries of the [Episodes] mapping of a season payload. *)
Definition entry_count (datum : OmdbSeason.t) : nat :=
  match OmdbSeason.Episodes datum with
  | Some entries => length entries
  | None => 0
  end.

(** Further inputs: a film with the attributes the constructor renames, an
    episode, an error payload, a season payload without [Episodes], one
    search hit, and options that override the timeout only. *)
Definition example_film : OmdbObject :=
  [("Title", OStr "Heat"); ("Year", OStr "1995"); ("Genre", OStr "Action, Crime");
   ("Language", OStr "English, Spanish"); ("imdbRating", OStr "N/A");
   ("imdbVotes", OStr "700,000");
   ("Ratings", ORatings [{| Source := "Internet Movie Database"; Value := "8.3/10" |}]);
   ("imdbID", OStr "tt0113277"); ("Type", OStr "movie"); ("Response", OStr "True")].

Definition example_episode : OmdbObject :=
  [("Title", OStr "Pilot"); ("Year", OStr "2015"); ("Season", OStr "3");
   ("Episode", OStr "4"); ("imdbID", OStr "tt3"); ("seriesID", OStr "tt1");
   ("Type", OStr "episode"); ("Response", OStr "True")].

Definition example_error : OmdbObject :=
  [("Response", OStr "False"); ("Error", OStr "Movie not found!")].

Definition example_season_bare : OmdbSeason.t :=
  {| OmdbSeason.Season := Some "1";
     OmdbSeason.Episodes := None;
     OmdbSeason.Response := Some "True";
     OmdbSeason.Error := None |}.

Definition seasons_bare (i : Z) : option OmdbSeason.t := Some example_season_bare.

Definition example_hit : OmdbObject :=
  [("Title", OStr "The Toxic Avenger"); ("Year", OStr "1984");
   ("imdbID", OStr "tt0090190"); ("Type", OStr "movie")].

Definition example_overrides : MovieOpts :=
  {| apiKey := Absent; timeout := Present (Some 5000) |}.

(** The show a promise resolved to; [d] otherwise. *)
Definition show_or `{RT : Runtime} (p : Promise Item) (d : TVShow) : TVShow :=
  match p with
  | Fulfilled (ITVShow t) => t
  | _ => d
  end.


(** ** Properties *)

Section Properties.
Context `{RT : Runtime}.
Context `{EI : IsError OmdbObject, ES : IsError OmdbSearch.t, EN : IsError OmdbSeason.t}.
Context `{G : Guards} {T : @Transport RT}.

(** A string literal is not in a list of other literals. *)
Ltac not_in_list :=
  let H := fresh "Hin" in
  intros H;
  repeat (apply elem_of_cons in H as [H|H]; [discriminate H|]);
  by apply elem_of_nil in H.

(** A string literal differs from a key known to be in a list of others. *)
Ltac key_ne Hk :=
  intros <-; revert Hk; not_in_list.

Lemma lower_char_not_upper c : JsString.is_upper (JsString.lower_char c) = false.
Proof. destruct c as [[] [] [] [] [] [] [] []]; reflexivity. Qed.

Lemma toLowerCase_no_upper s : has_upper (JsString.toLowerCase s) = false.
Proof.
  induction s as [|c s IH]; simpl; [done|].
  by rewrite lower_char_not_upper, IH.
Qed.

Lemma toLowerCase_ne_upper s k : has_upper k = true -> JsString.toLowerCase s <> k.
Proof. intros Hk Heq. rewrite <- Heq, toLowerCase_no_upper in Hk. done. Qed.

Lemma for_of_app {A S} (body : S -> A -> Completion S) l1 l2 st :
  for_of body (l1 ++ l2) st =
  (st' <- for_of body l1 st ;; for_of body l2 st')%completion.
Proof.
  revert st. induction l1 as [|a l1 IH]; intros st; simpl; [done|].
  destruct (body st a); simpl; [apply IH | done].
Qed.

Lemma for_of_invariant {A S} (body : S -> A -> Completion S) (P : S -> Prop) l st st' :
  (forall a s s', a ∈ l -> P s -> body s a = Normal s' -> P s') ->
  P st -> for_of body l st = Normal st' -> P st'.
Proof.
  revert st. induction l as [|a l IH]; intros st Hstep Hst Hrun; simpl in Hrun.
  - by inversion Hrun; subst.
  - destruct (body st a) as [s1|] eqn:Hb; simpl in Hrun; [|done].
    apply (IH s1); [| |done].
    + intros a' s s' Hin. apply Hstep. by right.
    + eapply Hstep; [by left|done|done].
Qed.

Lemma for_of_split {A S} (body : S -> A -> Completion S) pre a post st st' :
  for_of body (pre ++ a :: post) st = Normal st' ->
  exists s1 s2, for_of body pre st = Normal s1 /\ body s1 a = Normal s2 /\
                for_of body post s2 = Normal st'.
Proof.
  rewrite for_of_app. destruct (for_of body pre st) as [s1|] eqn:H1; simpl; [|done].
  destruct (body s1 a) as [s2|] eqn:H2; simpl; [|done].
  intros H3. by exists s1, s2.
Qed.

Lemma prop_is_Some {A} (obj : list (string * A)) attr :
  attr ∈ getOwnPropertyNames obj -> is_Some (prop obj attr).
Proof.
  unfold getOwnPropertyNames. induction obj as [|[k v] obj IH]; simpl.
  - by intros ?%elem_of_nil.
  - intros [->|Hin]%elem_of_cons; case_decide; eauto; done.
Qed.

Lemma prop_Some_name {A} (obj : list (string * A)) attr v :
  prop obj attr = Some v -> attr ∈ getOwnPropertyNames obj.
Proof.
  unfold getOwnPropertyNames. induction obj as [|[k w] obj IH]; simpl; [done|].
  case_decide; [subst; intros _; by left | intros ?; right; auto].
Qed.

Lemma Movie_attr_frame obj this attr this' k :
  Movie_attr obj this attr = Normal this' ->
  k ∉ Movie_attr_writes attr -> this' !! k = this !! k.
Proof.
  unfold Movie_attr, Movie_attr_writes.
  repeat case_decide.
  - destruct (prop obj attr) as [[y|]|]; [|done|done].
    destruct (JsString.year_range_match y).
    + intros [= <-] Hk. rewrite lookup_insert_ne; [done|]. intros <-. apply Hk. set_solver.
    + destruct (JsString.parseInt y); [|done]. subst attr.
      intros [= <-] Hk. rewrite !lookup_insert_ne; [done| |].
      * intros <-. apply Hk. set_solver.
      * intros <-. apply Hk. set_solver.
  - destruct (Date_new _); intros [= <-] Hk; rewrite lookup_insert_ne; set_solver.
  - destruct (Date_new _); intros [= <-] Hk; rewrite lookup_insert_ne; set_solver.
  - subst attr. intros [= <-] Hk. rewrite lookup_insert_ne; set_solver.
  - destruct (transTable attr) as [key|]; [intros [= <-] Hk; rewrite lookup_insert_ne; set_solver|].
    destruct (ratings_to_push _) as [rs|]; simpl; [|done].
    unfold push_ratings. destruct rs; [by intros [= <-]|].
    destruct (this !! "ratings") as [[]|]; try done.
    intros [= <-] Hk; rewrite lookup_insert_ne; set_solver.
  - destruct (transTable attr) as [key|]; intros [= <-] Hk; rewrite lookup_insert_ne; set_solver.
Qed.



Lemma ratings_inv_frame attr rest (this this1 : gmap string JsValue) :
  ratings_inv (attr :: rest) this ->
  this1 !! "ratings" = this !! "ratings" -> ratings_inv rest this1.
Proof.
  intros [[l Hl]|Hno] Heq.
  - left. exists l. by rewrite Heq.
  - right. intros Hin. apply Hno. by right.
Qed.

Lemma Movie_attr_ok obj this attr rest :
  attr <> "Year" -> is_Some (prop obj attr) ->
  ratings_inv (attr :: rest) this ->
  JsString.toLowerCase attr ∉ JsString.toLowerCase <$> rest ->
  exists this1, Movie_attr obj this attr = Normal this1 /\ ratings_inv rest this1.
Proof.
  intros Hny [v Hv] Hinv Hfresh. unfold Movie_attr. rewrite Hv.
  rewrite decide_False by done.
  repeat case_decide.
  - destruct (Date_new _); eexists; (split; [done|]);
      (eapply ratings_inv_frame; [done|by rewrite lookup_insert_ne]).
  - destruct (Date_new _); eexists; (split; [done|]);
      (eapply ratings_inv_frame; [done|by rewrite lookup_insert_ne]).
  - subst attr. eexists; (split; [done|]).
    eapply ratings_inv_frame; [done|by rewrite lookup_insert_ne].
  - subst attr. change (transTable "Ratings") with (@None string). cbv beta iota.
    assert (exists rs, ratings_to_push (Some v) = Normal rs) as [rs ->]
      by (destruct v; simpl; eauto).
    simpl. unfold push_ratings. destruct rs as [|r rs].
    + eexists; split; [done|]. by eapply ratings_inv_frame.
    + destruct Hinv as [[l Hl]|Hno]; [|exfalso; apply Hno; by left].
      rewrite Hl. eexists; split; [done|]. left. eexists. by rewrite lookup_insert_eq.
  - destruct (transTable attr) as [key|] eqn:Htt.
    + eexists; (split; [done|]).
      eapply ratings_inv_frame; [done|]. rewrite lookup_insert_ne; [done|].
      unfold transTable in Htt. repeat case_decide; by inversion Htt.
    + eexists; (split; [done|]).
      destruct (decide (JsString.toLowerCase attr = "ratings")) as [Heq|Hne].
      * right. intros Hin. apply Hfresh. rewrite Heq.
        change "ratings" with (JsString.toLowerCase "Ratings"). by apply list_elem_of_fmap_2.
      * eapply ratings_inv_frame; [done|]. by rewrite lookup_insert_ne.
Qed.

Lemma Movie_attr_Year obj this rest v :
  prop obj "Year" = Some v ->
  ratings_inv ("Year" :: rest) this ->
  match year_error v with
  | Some e => Movie_attr obj this "Year" = Throw e
  | None => exists this1, Movie_attr obj this "Year" = Normal this1 /\ ratings_inv rest this1
  end.
Proof.
  intros Hv Hinv. unfold Movie_attr. rewrite Hv. rewrite decide_True by done.
  destruct v as [y|l]; simpl; [|done].
  destruct (JsString.year_range_match y).
  - eexists; split; [done|]. eapply ratings_inv_frame; [done|by rewrite lookup_insert_ne].
  - destruct (JsString.parseInt y); [|done].
    eexists; split; [done|]. eapply ratings_inv_frame; [done|].
    by rewrite !lookup_insert_ne.
Qed.

Lemma Movie_loop_total obj rest this :
  NoDup (JsString.toLowerCase <$> rest) ->
  (forall a, a ∈ rest -> is_Some (prop obj a)) ->
  ratings_inv rest this ->
  match (if bool_decide ("Year" ∈ rest) then Year_error obj else None) with
  | Some e => for_of (Movie_attr obj) rest this = Throw e
  | None => exists this', for_of (Movie_attr obj) rest this = Normal this'
  end.
Proof.
  revert this. induction rest as [|attr rest IH]; intros this Hnd Hown Hinv.
  - rewrite bool_decide_eq_false_2 by apply not_elem_of_nil. by eexists.
  - rewrite fmap_cons in Hnd. apply NoDup_cons in Hnd as [Hfresh Hnd].
    assert (forall a, a ∈ rest -> is_Some (prop obj a)) as Hown'
      by (intros a Ha; apply Hown; by right).
    destruct (decide (attr = "Year")) as [->|Hny].
    + rewrite bool_decide_eq_true_2 by (by left).
      destruct (Hown "Year") as [v Hv]; [by left|].
      unfold Year_error. rewrite Hv. simpl.
      pose proof (Movie_attr_Year obj this rest v Hv Hinv) as Hstep.
      destruct (year_error v) as [e|].
      * by rewrite Hstep.
      * destruct Hstep as (this1 & -> & Hinv1). simpl.
        specialize (IH this1 Hnd Hown' Hinv1).
        rewrite bool_decide_eq_false_2 in IH; [done|].
        intros Hin. apply Hfresh. by apply (list_elem_of_fmap_2 JsString.toLowerCase) in Hin.
    + destruct (Movie_attr_ok obj this attr rest) as (this1 & Hstep & Hinv1); auto.
      { apply Hown. by left. }
      simpl. rewrite Hstep. simpl.
      specialize (IH this1 Hnd Hown' Hinv1).
      destruct (decide ("Year" ∈ rest)) as [Hin|Hnin].
      * rewrite bool_decide_eq_true_2 in IH by done.
        rewrite bool_decide_eq_true_2 by (by right). done.
      * rewrite bool_decide_eq_false_2 in IH by done.
        rewrite bool_decide_eq_false_2; [done|].
        intros [?|?]%elem_of_cons; done.
Qed.

Lemma Year_error_absent obj : "Year" ∉ getOwnPropertyNames obj -> Year_error obj = None.
Proof.
  intros Hno. unfold Year_error. destruct (prop obj "Year") as [v|] eqn:Hv; [|done].
  exfalso. apply Hno. by eapply prop_Some_name.
Qed.

(** Construction fails for the year and for nothing else. *)
Lemma Movie_new_total obj :
  names_distinct obj ->
  match Year_error obj with
  | Some e => Movie_new obj = Throw e
  | None => exists this, Movie_new obj = Normal this
  end.
Proof.
  intros Hnd. unfold Movie_new.
  pose proof (Movie_loop_total obj (getOwnPropertyNames obj) {["ratings" := VArr []]} Hnd) as Hloop.
  destruct (decide ("Year" ∈ getOwnPropertyNames obj)) as [Hin|Hnin].
  - rewrite bool_decide_eq_true_2 in Hloop by done.
    destruct (Year_error obj) as [e|].
    + rewrite Hloop; [done|apply prop_is_Some|]. left. eexists. apply lookup_singleton_eq.
    + destruct Hloop as [this' ->]; [apply prop_is_Some| |].
      * left. eexists. apply lookup_singleton_eq.
      * simpl. by eexists.
  - rewrite bool_decide_eq_false_2 in Hloop by done.
    rewrite Year_error_absent by done.
    destruct Hloop as [this' ->]; [apply prop_is_Some| |].
    + left. eexists. apply lookup_singleton_eq.
    + simpl. by eexists.
Qed.


Lemma Movie_loop_frame obj l this this' k :
  for_of (Movie_attr obj) l this = Normal this' ->
  (forall a, a ∈ l -> k ∉ Movie_attr_writes a) ->
  this' !! k = this !! k.
Proof.
  intros Hrun Hk.
  apply (for_of_invariant (Movie_attr obj) (fun s => s !! k = this !! k) l this this');
    [|done|done].
  intros a s s' Hin Hs Hstep. rewrite <- Hs. eapply Movie_attr_frame; eauto.
Qed.

Lemma Movie_attr_writes_lower attr k :
  k ∈ Movie_attr_writes attr -> k ∈ special_keys \/ JsString.toLowerCase attr = k.
Proof.
  unfold Movie_attr_writes, special_keys, transTable.
  repeat case_decide; subst; rewrite ?elem_of_cons, ?elem_of_nil;
    intuition (subst; auto).
Qed.

Lemma Movie_attr_writes_yearData attr :
  "_yearData" ∈ Movie_attr_writes attr -> attr = "Year".
Proof.
  unfold Movie_attr_writes, transTable.
  repeat case_decide; [done|..]; intros Hin%list_elem_of_singleton; try discriminate Hin.
  symmetry in Hin. by apply toLowerCase_ne_upper in Hin.
Qed.

Lemma distinctb_NoDup l : distinctb l = true -> NoDup l.
Proof.
  induction l as [|x l IH]; simpl; [intros _; apply NoDup_nil_2|].
  intros [Hx Hl]%andb_prop. apply NoDup_cons_2; [|by apply IH].
  intros Hin. rewrite forallb_forall in Hx.
  apply list_elem_of_In, Hx in Hin. by rewrite String.eqb_refl in Hin.
Qed.

Lemma names_distinctb_spec obj : names_distinctb obj = true -> names_distinct obj.
Proof. apply distinctb_NoDup. Qed.

Lemma NoDup_fmap_inj_on {A B} (f : A -> B) (l : list A) a b :
  NoDup (f <$> l) -> a ∈ l -> b ∈ l -> f a = f b -> a = b.
Proof.
  induction l as [|x l IH]; [by intros _ ?%elem_of_nil|].
  rewrite fmap_cons. intros [Hx Hnd]%NoDup_cons Ha Hb Heq.
  apply elem_of_cons in Ha as [->|Ha]; apply elem_of_cons in Hb as [->|Hb]; auto.
  - exfalso. apply Hx. rewrite Heq. by apply list_elem_of_fmap_2.
  - exfalso. apply Hx. rewrite <- Heq. by apply list_elem_of_fmap_2.
Qed.

Lemma names_distinct_NoDup obj : names_distinct obj -> NoDup (getOwnPropertyNames obj).
Proof. apply NoDup_fmap_1. Qed.

(** Under [names_distinct], only [a0] writes the key [toLowerCase a0]. *)
Lemma only_writer obj a0 a k :
  names_distinct obj ->
  a0 ∈ getOwnPropertyNames obj -> a ∈ getOwnPropertyNames obj -> a <> a0 ->
  JsString.toLowerCase a0 = k -> k ∉ special_keys ->
  k ∉ Movie_attr_writes a.
Proof.
  intros Hnd Ha0 Ha Hne Hk Hsp Hin.
  apply Movie_attr_writes_lower in Hin as [?|Hlow]; [done|].
  apply Hne. eapply NoDup_fmap_inj_on; [exact Hnd|done|done|congruence].
Qed.

(** The value the constructed object holds under a key that a single
    attribute writes is the one the loop body for that attribute leaves. *)
Lemma Movie_new_written_by obj a0 k this :
  NoDup (getOwnPropertyNames obj) ->
  a0 ∈ getOwnPropertyNames obj ->
  (forall a, a ∈ getOwnPropertyNames obj -> a <> a0 -> k ∉ Movie_attr_writes a) ->
  k ∉ ["ratings"; "name"; "series"; "imdburl"] ->
  Movie_new obj = Normal this ->
  exists s1 s2, s1 !! k = None /\ Movie_attr obj s1 a0 = Normal s2 /\ this !! k = s2 !! k.
Proof.
  intros Hnd Ha0 Honly Hk. unfold Movie_new.
  destruct (for_of _ _ _) as [this0|] eqn:Hloop; simpl; [|done].
  intros [= <-].
  apply list_elem_of_split in Ha0 as (pre & post & Hsplit).
  rewrite Hsplit in Hloop, Honly, Hnd.
  apply NoDup_app in Hnd as (_ & Hpre_ne & [Hpost_ne _]%NoDup_cons).
  apply for_of_split in Hloop as (s1 & s2 & Hpre & Hstep & Hpost).
  exists s1, s2. split; [|split; [done|]].
  - erewrite Movie_loop_frame; [|exact Hpre|].
    + apply lookup_singleton_ne. set_solver.
    + intros a Ha. apply Honly; [set_solver|].
      intros ->. apply (Hpre_ne a0 Ha). by left.
  - rewrite !lookup_insert_ne by set_solver.
    eapply Movie_loop_frame; [exact Hpost|].
    intros a Ha. apply Honly; [set_solver|]. by intros ->.
Qed.


Lemma family_invariant_frame (this this' : gmap string JsValue) :
  (forall k, k ∈ ["name"; "title"; "series"; "type"] -> this' !! k = this !! k) ->
  family_invariant this -> family_invariant this'.
Proof.
  intros Hsame. unfold family_invariant, get_prop.
  rewrite !Hsame by set_solver. done.
Qed.

Lemma Movie_new_invariant obj this :
  Movie_new obj = Normal this -> family_invariant this.
Proof.
  unfold Movie_new. destruct (for_of _ _ _) as [this0|]; simpl; [|done].
  intros [= <-]. unfold family_invariant, get_prop. split.
  - rewrite lookup_insert_ne by done. rewrite lookup_insert_ne by done.
    rewrite lookup_insert_eq. simpl.
    rewrite lookup_insert_ne by done. rewrite lookup_insert_ne by done.
    by rewrite lookup_insert_ne by done.
  - rewrite lookup_insert_ne by done. rewrite lookup_insert_eq. simpl.
    rewrite !lookup_insert_ne by done. done.
Qed.

Lemma Episode_new_invariant obj season this :
  Episode_new obj season = Normal this -> family_invariant this.
Proof.
  unfold Episode_new. destruct (Movie_new obj) as [this0|] eqn:Hm; simpl; [|done].
  apply Movie_new_invariant in Hm. intros Hrun.
  assert (exists this1, (forall k, k ∈ ["name"; "title"; "series"; "type"] ->
                                   this1 !! k = this0 !! k) /\
            (if hasOwnProperty obj "Episode"
             then match JsString.parseInt (OmdbValue_toString (prop obj "Episode")) with
                  | Some n => Normal (<["episode":=VNum (Some n)]> this1)
                  | None => Throw (TypeError "invalid episode")
                  end
             else Normal this1) = Normal this) as (this1 & Hsame & Hrest).
  { destruct season as [season|]; simpl in Hrun.
    - eexists; split; [|exact Hrun]. intros k Hk. rewrite lookup_insert_ne; [done|key_ne Hk].
    - destruct (JsString.parseInt _); simpl in Hrun; [|done].
      eexists; split; [|exact Hrun]. intros k Hk. rewrite lookup_insert_ne; [done|key_ne Hk]. }
  clear Hrun. eapply family_invariant_frame; [|exact Hm].
  intros k Hk. rewrite <- Hsame by done.
  destruct (hasOwnProperty obj "Episode").
  - destruct (JsString.parseInt _); [|done]. injection Hrest as <-.
    rewrite lookup_insert_ne; [done|key_ne Hk].
  - by injection Hrest as <-.
Qed.

Lemma TVShow_new_invariant obj opts tvShow :
  TVShow_new obj opts = Normal tvShow -> family_invariant (props tvShow).
Proof.
  unfold TVShow_new. destruct (Movie_new obj) as [this0|] eqn:Hm; simpl; [|done].
  apply Movie_new_invariant in Hm.
  destruct (this0 !! "_yearData") as [[]|]; simpl; try done.
  intros [= <-]. simpl.
  eapply family_invariant_frame; [|exact Hm].
  intros k Hk. rewrite !lookup_delete_ne; [done|key_ne Hk..].
Qed.


Lemma Movie_attr_Year_result obj s1 s2 y :
  prop obj "Year" = Some (OStr y) ->
  Movie_attr obj s1 "Year" = Normal s2 ->
  s2 !! "_yearData" = Some (VStr y) /\
  s2 !! "year" = if JsString.year_range_match y then s1 !! "year"
                 else Some (VNum (JsString.parseInt y)).
Proof.
  intros Hy. unfold Movie_attr. rewrite Hy, decide_True by done. simpl.
  destruct (JsString.year_range_match y).
  - intros [= <-]. rewrite lookup_insert_eq. by rewrite lookup_insert_ne.
  - destruct (JsString.parseInt y); [|done].
    intros [= <-]. change (JsString.toLowerCase "Year") with "year".
    rewrite lookup_insert_eq. rewrite lookup_insert_ne by done. by rewrite lookup_insert_eq.
Qed.

Lemma Movie_new_yearData obj y this :
  names_distinct obj -> prop obj "Year" = Some (OStr y) ->
  Movie_new obj = Normal this ->
  get_prop this "_yearData" = VStr y /\
  get_prop this "year" = if JsString.year_range_match y then VUndef
                         else VNum (JsString.parseInt y).
Proof.
  intros Hnd Hy Hthis.
  pose proof (prop_Some_name _ _ _ Hy) as Hin.
  pose proof (names_distinct_NoDup _ Hnd) as Hnd'.
  unfold get_prop. split.
  - destruct (Movie_new_written_by obj "Year" "_yearData" this) as (s1 & s2 & _ & Hstep & ->);
      [done|done| |not_in_list|done|].
    + intros a _ Hne Hw. by apply Movie_attr_writes_yearData in Hw.
    + by destruct (Movie_attr_Year_result obj s1 s2 y Hy Hstep) as [-> _].
  - destruct (Movie_new_written_by obj "Year" "year" this) as (s1 & s2 & Hs1 & Hstep & ->);
      [done|done| |not_in_list|done|].
    + intros a Ha Hne. eapply (only_writer obj "Year"); [done..|]. not_in_list.
    + destruct (Movie_attr_Year_result obj s1 s2 y Hy Hstep) as [_ ->].
      destruct (JsString.year_range_match y); [by rewrite Hs1|done].
Qed.

(** C5. For a payload whose attribute names are distinct and whose [Year] is
    the string [y]: when [y] matches the year-range pattern, construction
    succeeds, [_yearData] holds [y] verbatim and no integer [year] is set;
    otherwise [y] is parsed as an integer, and construction throws
    [TypeError("invalid year")] exactly when that parse gives [NaN], and
    otherwise succeeds with [_yearData] holding [y] and [year] the parsed
    integer. *)
Theorem Movie_year_rule obj y :
  names_distinct obj -> prop obj "Year" = Some (OStr y) ->
  if JsString.year_range_match y then
    exists this, Movie_new obj = Normal this /\
                 get_prop this "_yearData" = VStr y /\ get_prop this "year" = VUndef
  else
    match JsString.parseInt y with
    | None => Movie_new obj = Throw (TypeError "invalid year")
    | Some n =>
      exists this, Movie_new obj = Normal this /\
                   get_prop this "_yearData" = VStr y /\ get_prop this "year" = VNum (Some n)
    end.
Proof.
  intros Hnd Hy.
  pose proof (Movie_new_total obj Hnd) as Htotal.
  pose proof (Movie_new_yearData obj y) as Hkeys.
  unfold Year_error in Htotal. rewrite Hy in Htotal. simpl in Htotal.
  destruct (JsString.year_range_match y).
  - destruct Htotal as [this Hthis]. exists this. split; [done|]. by apply Hkeys.
  - destruct (JsString.parseInt y) as [n|]; [|done].
    destruct Htotal as [this Hthis]. exists this. split; [done|]. by apply Hkeys.
Qed.

Lemma Movie_attr_date_result obj s1 s2 attr key v :
  (attr = "Released" /\ key = "released") \/ (attr = "DVD" /\ key = "dvd") ->
  prop obj attr = Some v ->
  Movie_attr obj s1 attr = Normal s2 ->
  s2 !! key = Some (match Date_new (Some v) with Some t => VDate t | None => VUndef end).
Proof.
  intros [[-> ->]|[-> ->]] Hv; unfold Movie_attr; rewrite Hv.
  - rewrite decide_False, decide_True by done.
    destruct (Date_new _); intros [= <-]; by rewrite lookup_insert_eq.
  - rewrite decide_False, decide_False, decide_True by done.
    destruct (Date_new _); intros [= <-]; by rewrite lookup_insert_eq.
Qed.

Lemma Movie_new_date obj attr key v this :
  (attr = "Released" /\ key = "released") \/ (attr = "DVD" /\ key = "dvd") ->
  names_distinct obj -> prop obj attr = Some v ->
  Movie_new obj = Normal this ->
  get_prop this key = match Date_new (Some v) with Some t => VDate t | None => VUndef end.
Proof.
  intros Hkey Hnd Hv Hthis.
  pose proof (prop_Some_name _ _ _ Hv) as Hin.
  pose proof (names_distinct_NoDup _ Hnd) as Hnd'.
  unfold get_prop.
  destruct (Movie_new_written_by obj attr key this) as (s1 & s2 & _ & Hstep & ->);
    [done|done| | |done|].
  - intros a Ha Hne. eapply (only_writer obj attr); [done..| |].
    + by destruct Hkey as [[-> ->]|[-> ->]].
    + destruct Hkey as [[-> ->]|[-> ->]]; not_in_list.
  - destruct Hkey as [[-> ->]|[-> ->]]; not_in_list.
  - by rewrite (Movie_attr_date_result obj s1 s2 attr key v).
Qed.

(** C9. For a payload whose attribute names are distinct: construction can
    fail for the year only, whatever the [Released] and [DVD] strings are,
    so it succeeds when the year is acceptable; and in the constructed
    object [released] (respectively [dvd]) is the parsed date when the
    string parses as a date and is [undefined] when it does not. *)
Theorem Movie_dates_lenient obj :
  names_distinct obj ->
  (forall e, Movie_new obj = Throw e -> Year_error obj = Some e) /\
  (Year_error obj = None -> exists this, Movie_new obj = Normal this) /\
  (forall this, Movie_new obj = Normal this ->
     (forall r, prop obj "Released" = Some (OStr r) ->
        get_prop this "released" =
          match Date_parse r with Some t => VDate t | None => VUndef end) /\
     (forall d, prop obj "DVD" = Some (OStr d) ->
        get_prop this "dvd" =
          match Date_parse d with Some t => VDate t | None => VUndef end)).
Proof.
  intros Hnd. pose proof (Movie_new_total obj Hnd) as Htotal.
  split; [|split].
  - intros e He. destruct (Year_error obj); [congruence|].
    destruct Htotal as [this Hthis]. congruence.
  - intros Hy. by rewrite Hy in Htotal.
  - intros this Hthis. split.
    + intros r Hr. by rewrite (Movie_new_date obj "Released" "released" (OStr r)); auto.
    + intros d Hd. by rewrite (Movie_new_date obj "DVD" "dvd" (OStr d)); auto.
Qed.


(** *** The years of a show *)

Lemma split_hyphen_nonempty s : JsString.split_hyphen s <> [].
Proof.
  destruct s as [|c s]; simpl; [done|].
  destruct (Ascii.eqb c "-"); [done|]. by destruct (JsString.split_hyphen s).
Qed.

(** A string without hyphen, a hyphen, then the rest: the first piece is
    that string. *)
Lemma split_hyphen_app a b :
  (forall c, In c (list_ascii_of_string a) -> c <> "-"%char) ->
  JsString.split_hyphen (a ++ String "-" b) = a :: JsString.split_hyphen b.
Proof.
  induction a as [|c a IH]; simpl; intros Hno; [done|].
  destruct (Ascii.eqb_spec c "-") as [->|_].
  { exfalso. apply (Hno "-"%char); [simpl; by left|done]. }
  rewrite IH; [done|]. intros c' Hc'. apply Hno. simpl. by right.
Qed.

(** The years of a show are read from the pieces of the raw year between
    hyphens. *)
Lemma TVShow_new_years obj opts tvShow y :
  names_distinct obj -> prop obj "Year" = Some (OStr y) ->
  TVShow_new obj opts = Normal tvShow ->
  start_year tvShow =
    JsString.parseInt (option_toString (JsString.split_hyphen y !! 0%nat)) /\
  end_year tvShow =
    nonzero_or_undefined
      (JsString.parseInt (option_toString (JsString.split_hyphen y !! 1%nat))).
Proof.
  intros Hnd Hy. unfold TVShow_new.
  destruct (Movie_new obj) as [this|] eqn:Hthis; simpl; [|done].
  destruct (Movie_new_yearData obj y this Hnd Hy Hthis) as [Hdata _].
  unfold get_prop in Hdata.
  destruct (this !! "_yearData") as [v|]; simpl in Hdata; [|done]. subst v. simpl.
  by intros [= <-].
Qed.

(** *** The aggregation of episodes *)

Lemma mapM_ky {A B} (answer : list KyRequest -> KyRequest -> option A)
    (f : B -> KyRequest) (l : list B) log :
  mapM (fun i => ky answer (f i)) l log =
  (receive answer (f <$> l) log, (log ++ (f <$> l))%list).
Proof.
  revert log. induction l as [|b l IH]; intros log; simpl.
  - unfold ret. by rewrite app_nil_r.
  - unfold bind at 1. unfold ky at 1. unfold bind. rewrite IH. unfold ret.
    by rewrite <- app_assoc.
Qed.

Lemma receive_lookup {A} (answer : list KyRequest -> KyRequest -> option A) reqs log i a :
  receive answer reqs log !! i = Some a ->
  exists r, reqs !! i = Some r /\ a = answer (log ++ take i reqs)%list r.
Proof.
  revert log i. induction reqs as [|r reqs IH]; intros log i; simpl; [done|].
  destruct i as [|i]; simpl.
  - intros [= <-]. exists r. by rewrite app_nil_r.
  - intros (r' & Hr' & ->)%IH. exists r'. split; [done|]. by rewrite <- app_assoc.
Qed.

Lemma Promise_all_lookup {A} (l : list (option A)) (r : list A) i a :
  Promise_all l = Some r -> r !! i = Some a -> l !! i = Some (Some a).
Proof.
  revert r i. induction l as [|[x|] l IH]; intros r i; simpl; [by intros [= <-]| |done].
  destruct (Promise_all l) as [r'|]; [|done]. intros [= <-].
  destruct i as [|i]; simpl; [by intros [= ->]|]. by apply IH.
Qed.

Lemma TVShow_episodes_cached tvShow log :
  _episodes tvShow <> [] ->
  TVShow_episodes tvShow log = ((Fulfilled (_episodes tvShow), tvShow), log).
Proof.
  intros Hne. unfold TVShow_episodes.
  destruct (_episodes tvShow); [done|]. done.
Qed.

Lemma TVShow_episodes_fetch tvShow log :
  _episodes tvShow = [] ->
  TVShow_episodes tvShow log =
  (match Promise_all (receive ky_season (season_requests tvShow) log) with
   | None => (Rejected RequestError, tvShow)
   | Some epData =>
     match episodes_then epData with
     | Normal eps => (Fulfilled eps, set_episodes tvShow eps)
     | Throw e => (Rejected e, tvShow)
     end
   end, (log ++ season_requests tvShow)%list).
Proof.
  intros Hempty. unfold TVShow_episodes. rewrite Hempty. simpl.
  unfold bind. rewrite mapM_ky. fold (season_requests tvShow).
  destruct (Promise_all _) as [epData|]; [|done].
  by destruct (episodes_then epData).
Qed.

Lemma Episode_new_season obj season this :
  Episode_new obj (Some season) = Normal this ->
  get_prop this "season" = VNum season.
Proof.
  unfold Episode_new, get_prop.
  destruct (Movie_new obj) as [this0|]; simpl; [|done].
  destruct (hasOwnProperty obj "Episode").
  - destruct (JsString.parseInt _); [|done]. intros [= <-].
    rewrite lookup_insert_ne by done. by rewrite lookup_insert_eq.
  - intros [= <-]. by rewrite lookup_insert_eq.
Qed.

Lemma season_entries_spec (entries : list (string * OmdbObject)) season names eps eps' :
  for_of (fun eps ep =>
            match prop entries ep with
            | Some entry =>
              (e <- Episode_new entry (Some season) ;; Normal (eps ++ [e])%list)%completion
            | None => Throw (TypeError "Cannot convert undefined or null to object")
            end) names eps = Normal eps' ->
  exists new, eps' = (eps ++ new)%list /\ length new = length names /\
              Forall (fun ep => get_prop ep "season" = VNum season /\ family_invariant ep) new.
Proof.
  revert eps. induction names as [|ep names IH]; intros eps; simpl.
  - intros [= <-]. exists []. by rewrite app_nil_r.
  - destruct (prop entries ep) as [entry|]; simpl; [|done].
    destruct (Episode_new entry (Some season)) as [e|] eqn:He; simpl; [|done].
    intros (new & -> & Hlen & Hall)%IH. exists (e :: new).
    rewrite <- app_assoc. split; [done|]. split; [simpl; by rewrite Hlen|].
    constructor; [|done]. split; [by eapply Episode_new_season|by eapply Episode_new_invariant].
Qed.

Lemma season_episodes_spec eps datum eps' :
  season_episodes eps datum = Normal eps' ->
  isError datum = false /\
  exists new, eps' = (eps ++ new)%list /\
    Forall (fun ep => get_prop ep "season" = payload_season datum /\ family_invariant ep) new.
Proof.
  unfold season_episodes. destruct (isError datum); [done|].
  destruct (OmdbSeason.Episodes datum) as [entries|]; [|done].
  intros (new & -> & _ & Hall)%season_entries_spec. split; [done|]. by exists new.
Qed.

Lemma for_of_season_episodes_spec epData eps eps' :
  for_of season_episodes epData eps = Normal eps' ->
  exists groups, eps' = (eps ++ concat groups)%list /\
    Forall2 (fun datum group =>
               isError datum = false /\
               Forall (fun ep => get_prop ep "season" = payload_season datum /\
                                 family_invariant ep) group)
            epData groups.
Proof.
  revert eps. induction epData as [|datum epData IH]; intros eps; simpl.
  - intros [= <-]. exists []. simpl. by rewrite app_nil_r.
  - destruct (season_episodes eps datum) as [eps1|] eqn:Hd; simpl; [|done].
    apply season_episodes_spec in Hd as (Hne & new & -> & Hall).
    intros (groups & -> & Hgroups)%IH. exists (new :: groups). simpl.
    rewrite <- app_assoc. split; [done|]. by constructor.
Qed.

(** The episodes of one payload do not depend on those built before. *)
Lemma season_entries_acc (entries : list (string * OmdbObject)) season names eps :
  for_of (fun eps ep =>
            match prop entries ep with
            | Some entry =>
              (e <- Episode_new entry (Some season) ;; Normal (eps ++ [e])%list)%completion
            | None => Throw (TypeError "Cannot convert undefined or null to object")
            end) names eps =
  match for_of (fun eps ep =>
                  match prop entries ep with
                  | Some entry =>
                    (e <- Episode_new entry (Some season) ;;
                     Normal (eps ++ [e])%list)%completion
                  | None => Throw (TypeError "Cannot convert undefined or null to object")
                  end) names [] with
  | Normal new => Normal (eps ++ new)%list
  | Throw e => Throw e
  end.
Proof.
  revert eps. induction names as [|ep names IH]; intros eps; simpl.
  - by rewrite app_nil_r.
  - destruct (prop entries ep) as [entry|]; simpl; [|done].
    destruct (Episode_new entry (Some season)) as [e|]; simpl; [|done].
    rewrite (IH (eps ++ [e])%list), (IH [e]).
    destruct (for_of _ names []) as [new|]; [|done]. by rewrite <- app_assoc.
Qed.

Lemma season_episodes_acc eps datum :
  season_episodes eps datum =
    match season_episodes [] datum with
    | Normal new => Normal (eps ++ new)%list
    | Throw e => Throw e
    end.
Proof.
  unfold season_episodes. destruct (isError datum); [done|].
  destruct (OmdbSeason.Episodes datum) as [entries|]; [|done].
  apply season_entries_acc.
Qed.

Lemma season_entries_built (entries : list (string * OmdbObject)) season names group :
  for_of (fun eps ep =>
            match prop entries ep with
            | Some entry =>
              (e <- Episode_new entry (Some season) ;; Normal (eps ++ [e])%list)%completion
            | None => Throw (TypeError "Cannot convert undefined or null to object")
            end) names [] = Normal group ->
  Forall2 (fun name ep =>
             exists entry, prop entries name = Some entry /\
                           Episode_new entry (Some season) = Normal ep)
          names group.
Proof.
  revert group. induction names as [|ep names IH]; intros group; simpl.
  - intros [= <-]. constructor.
  - destruct (prop entries ep) as [entry|] eqn:Hentry; simpl; [|done].
    destruct (Episode_new entry (Some season)) as [e|] eqn:He; simpl; [|done].
    rewrite season_entries_acc.
    destruct (for_of _ names []) as [new|] eqn:Hnew; [|done].
    intros [= <-]. constructor; [by exists entry|]. by apply IH.
Qed.

Lemma season_episodes_built datum group :
  season_episodes [] datum = Normal group ->
  isError datum = false /\ built_from datum group /\
  Forall (fun ep => get_prop ep "season" = payload_season datum) group.
Proof.
  intros Hrun. pose proof Hrun as Hspec.
  apply season_episodes_spec in Hspec as (Herr & new & Heq & Hall).
  simpl in Heq. subst new. split; [done|]. split.
  - unfold season_episodes in Hrun. rewrite Herr in Hrun.
    destruct (OmdbSeason.Episodes datum) as [entries|] eqn:Hentries; [|done].
    exists entries. split; [done|]. by apply season_entries_built.
  - eapply Forall_impl; [exact Hall|]. by intros ep [? _].
Qed.

Lemma Promise_all_length {A} (l : list (option A)) r :
  Promise_all l = Some r -> length r = length l.
Proof.
  revert r. induction l as [|[a|] l IH]; intros r; simpl; [by intros [= <-]| |done].
  destruct (Promise_all l) as [r'|]; [|done]. intros [= <-]. simpl. f_equal. by apply IH.
Qed.

Lemma receive_length {A} (answer : list KyRequest -> KyRequest -> option A) reqs log :
  length (receive answer reqs log) = length reqs.
Proof.
  revert log. induction reqs as [|r reqs IH]; intros log; simpl; [done|]. by rewrite IH.
Qed.

(** When the loop over the payloads returns, every payload gave its group
    of episodes. *)
Lemma for_of_season_episodes_groups epData eps eps' :
  for_of season_episodes epData eps = Normal eps' ->
  exists groups, eps' = (eps ++ concat groups)%list /\
    Forall2 (fun datum group => season_episodes [] datum = Normal group) epData groups.
Proof.
  revert eps. induction epData as [|datum epData IH]; intros eps; simpl.
  - intros [= <-]. exists []. simpl. by rewrite app_nil_r.
  - rewrite season_episodes_acc.
    destruct (season_episodes [] datum) as [new|] eqn:Hd; simpl; [|done].
    intros (groups & -> & Hgroups)%IH. exists (new :: groups). simpl.
    rewrite <- app_assoc. split; [done|]. by constructor.
Qed.

(** When it throws, the error is that of the first payload that fails. *)
Lemma for_of_season_episodes_first_error epData eps e :
  for_of season_episodes epData eps = Throw e ->
  exists k bad,
    epData !! k = Some bad /\
    (forall j d, (j < k)%nat -> epData !! j = Some d ->
                 exists group, season_episodes [] d = Normal group) /\
    season_episodes [] bad = Throw e.
Proof.
  revert eps. induction epData as [|datum epData IH]; intros eps; simpl; [done|].
  rewrite season_episodes_acc.
  destruct (season_episodes [] datum) as [new|e0] eqn:Hd; simpl.
  - intros (k & bad & Hk & Hbefore & Hbad)%IH. exists (S k), bad.
    split; [done|]. split; [|done].
    intros [|j] d Hj; simpl; [intros [= <-]; by exists new|].
    apply Hbefore. lia.
  - intros [= <-]. exists 0%nat, datum. split; [done|]. split; [|done].
    intros j d Hj. lia.
Qed.

Lemma episodes_then_error pre datum post :
  isError datum = true ->
  exists e, episodes_then (pre ++ datum :: post) = Throw e /\
    (forall built, episodes_then pre = Normal built ->
                   e = ImdbError (OmdbSeason.Error datum)).
Proof.
  intros Herr. unfold episodes_then. rewrite for_of_app.
  destruct (for_of season_episodes pre []) as [built|e]; simpl.
  - unfold season_episodes at 1. rewrite Herr. simpl. eexists; split; [done|]. done.
  - exists e. split; [done|]. done.
Qed.


(** C1, as amended. When [episodes()] fetches and resolves to [eps], there
    is one payload for each season request, the payload at index [i] being
    the answer to the request for season [i + 1]; [eps] is the
    concatenation, in that order, of one group for each payload; the group
    of a payload holds the episodes built from the entries of its
    [Episodes] mapping, in order; and every episode of the group has for
    [season] the integer parsed from the [Season] field of that payload:
    the season comes from the season payload, not from the number in the
    request. *)
Theorem episodes_season_from_payload tvShow log eps tvShow' log' :
  _episodes tvShow = [] ->
  TVShow_episodes tvShow log = ((Fulfilled eps, tvShow'), log') ->
  exists epData groups,
    length epData = length (season_requests tvShow) /\
    (forall i datum, epData !! i = Some datum ->
       ky_season (log ++ take i (season_requests tvShow))%list
                 (season_reqopts tvShow (Z.of_nat (S i))) = Some datum) /\
    eps = concat groups /\
    Forall2 (fun datum group =>
               built_from datum group /\
               Forall (fun ep => get_prop ep "season" = payload_season datum) group)
            epData groups.
Proof.
  intros Hempty. rewrite TVShow_episodes_fetch by done.
  destruct (Promise_all _) as [epData|] eqn:Hall; [|done].
  destruct (episodes_then epData) as [eps0|] eqn:Hthen; [|done].
  intros [= <- <- <-]. unfold episodes_then in Hthen.
  apply for_of_season_episodes_groups in Hthen as (groups & -> & Hgroups).
  exists epData, groups. split; [|split; [|split; [done|]]].
  - by rewrite (Promise_all_length _ _ Hall), receive_length.
  - intros i datum Hi.
    pose proof (Promise_all_lookup _ _ _ _ Hall Hi) as Hrecv.
    apply receive_lookup in Hrecv as (r & Hr & Heq).
    rewrite Heq. f_equal. unfold season_requests in Hr.
    rewrite list_lookup_fmap in Hr. unfold season_numbers in Hr.
    destruct (totalseasons tvShow) as [n|]; [|done].
    rewrite list_lookup_fmap in Hr.
    destruct (seq 1 (Z.to_nat n) !! i) as [k|] eqn:Hk; [|done].
    apply lookup_seq in Hk as [-> _]. simpl in Hr. by injection Hr as <-.
  - eapply Forall2_impl; [exact Hgroups|]. intros datum group Hg.
    by apply season_episodes_built in Hg as (_ & ? & ?).
Qed.

(** C7, as amended. When all season payloads are received and one of them,
    [datum], is error-classified, [episodes()] rejects, so that no list is
    returned, and leaves the show, hence its cache, unchanged. The
    rejection is the error of the first payload, in season order, that
    fails: every payload before it gives its episodes, and it is [datum] or
    a payload before [datum]. So the rejection is the [ImdbError] carrying
    the message of [datum] whenever the payloads before [datum] build
    without an error. *)
Theorem episodes_error_rejects tvShow log epData pre datum post :
  _episodes tvShow = [] ->
  Promise_all (receive ky_season (season_requests tvShow) log) = Some epData ->
  epData = (pre ++ datum :: post)%list ->
  isError datum = true ->
  exists e,
    TVShow_episodes tvShow log =
      ((Rejected e, tvShow), (log ++ season_requests tvShow)%list) /\
    (forall built, episodes_then pre = Normal built ->
                   e = ImdbError (OmdbSeason.Error datum)) /\
    exists k bad,
      (k <= length pre)%nat /\
      epData !! k = Some bad /\
      (forall j d, (j < k)%nat -> epData !! j = Some d ->
                   exists group, season_episodes [] d = Normal group) /\
      season_episodes [] bad = Throw e.
Proof.
  intros Hempty Hall -> Herr. rewrite TVShow_episodes_fetch by done. rewrite Hall.
  destruct (episodes_then_error pre datum post Herr) as (e & Hthrow & He).
  rewrite Hthrow. exists e. split; [done|]. split; [done|].
  unfold episodes_then in Hthrow.
  apply for_of_season_episodes_first_error in Hthrow as (k & bad & Hk & Hbefore & Hbad).
  exists k, bad. split; [|done].
  destruct (decide (k <= length pre)%nat) as [|Hgt]; [done|]. exfalso.
  destruct (Hbefore (length pre) datum) as [group Hgroup]; [lia| |].
  - by rewrite list_lookup_middle.
  - unfold season_episodes in Hgroup. by rewrite Herr in Hgroup.
Qed.

Lemma set_episodes_same tvShow : set_episodes tvShow (_episodes tvShow) = tvShow.
Proof. by destruct tvShow. Qed.

(** C10. With a non-empty cache [episodes()] resolves to the cached list,
    leaves the show unchanged and makes no request. With an empty cache it
    makes the requests of all the seasons; and when that aggregation
    resolves to the empty list the show is left as it was, so that the next
    call makes the requests of all the seasons again. *)
Theorem episodes_cache_only_when_nonempty tvShow log :
  (_episodes tvShow <> [] ->
     TVShow_episodes tvShow log = ((Fulfilled (_episodes tvShow), tvShow), log)) /\
  (_episodes tvShow = [] ->
     (TVShow_episodes tvShow log).2 = (log ++ season_requests tvShow)%list /\
     forall tvShow' log',
       TVShow_episodes tvShow log = ((Fulfilled [], tvShow'), log') ->
       tvShow' = tvShow /\
       (TVShow_episodes tvShow' log').2 = (log' ++ season_requests tvShow)%list).
Proof.
  split; [apply TVShow_episodes_cached|].
  intros Hempty. split; [by rewrite TVShow_episodes_fetch|].
  intros tvShow' log'. rewrite TVShow_episodes_fetch by done.
  destruct (Promise_all _) as [epData|]; [|done].
  destruct (episodes_then epData) as [eps|]; [|done].
  intros [= -> <- <-]. rewrite <- Hempty at 1. rewrite set_episodes_same.
  split; [done|]. by rewrite TVShow_episodes_fetch.
Qed.

Lemma TVShow_episodes_props tvShow log :
  props (TVShow_episodes tvShow log).1.2 = props tvShow.
Proof.
  destruct (decide (_episodes tvShow = [])) as [Hempty|Hne].
  - rewrite TVShow_episodes_fetch by done. simpl.
    destruct (Promise_all _) as [epData|]; [|done].
    by destruct (episodes_then epData).
  - by rewrite TVShow_episodes_cached.
Qed.

(** C4. Every record a constructor of the [Movie] family returns ([Movie],
    [Episode], [TVShow], [Game]) satisfies [name === title] and
    [series === (type !== "movie")]; [episodes()], the only operation that
    changes a record after its construction, keeps the invariant of the
    show, and the episodes it resolves to satisfy it too. *)
Theorem family_invariant_holds :
  (forall obj this, Movie_new obj = Normal this -> family_invariant this) /\
  (forall obj season this, Episode_new obj season = Normal this -> family_invariant this) /\
  (forall obj opts tvShow, TVShow_new obj opts = Normal tvShow ->
                           family_invariant (props tvShow)) /\
  (forall obj this, Game_new obj = Normal this -> family_invariant this) /\
  (forall tvShow log,
     family_invariant (props tvShow) ->
     family_invariant (props (TVShow_episodes tvShow log).1.2)) /\
  (forall tvShow log eps,
     _episodes tvShow = [] ->
     (TVShow_episodes tvShow log).1.1 = Fulfilled eps -> Forall family_invariant eps).
Proof.
  split; [apply Movie_new_invariant|].
  split; [apply Episode_new_invariant|].
  split; [apply TVShow_new_invariant|].
  split; [apply Movie_new_invariant|].
  split.
  - intros tvShow log. by rewrite TVShow_episodes_props.
  - intros tvShow log eps Hempty. rewrite TVShow_episodes_fetch by done. simpl.
    destruct (Promise_all _) as [epData|]; [|done].
    destruct (episodes_then epData) as [eps0|] eqn:Hthen; [|done].
    intros [= <-]. unfold episodes_then in Hthen.
    apply for_of_season_episodes_spec in Hthen as (groups & -> & Hgroups). simpl.
    apply Forall_concat. induction Hgroups as [|datum group ? ? [_ Hg] _ IH]; constructor; [|done].
    eapply Forall_impl; [exact Hg|]. by intros ep [_ ?].
Qed.


(** *** The client *)

Lemma prop_app_fresh {A} (l : list (string * A)) k v :
  prop l k = None -> prop (l ++ [(k, v)]) k = Some v.
Proof.
  induction l as [|[k' v'] l IH]; simpl; [by rewrite decide_True|].
  case_decide; [done|]. apply IH.
Qed.

Lemma prop_app_other {A} (l : list (string * A)) k k' v :
  k <> k' -> prop (l ++ [(k', v)]) k = prop l k.
Proof.
  intros Hne. induction l as [|[k0 v0] l IH]; simpl; [by rewrite decide_False|].
  case_decide; [done|]. apply IH.
Qed.

(** C2, as amended. [Client.get] asks for at least one of [name] and [id]:
    when neither is a non-empty string it rejects with the error
    [Missing one of req.id or req.name] and makes no request; when [name]
    is a non-empty string exactly one request is made, by title, whether or
    not an [id] is supplied as well; otherwise exactly one request is made,
    by id. *)
Theorem Client_get_name_or_id this req opts log :
  match truthy_string (MovieRequest.name req), truthy_string (MovieRequest.id req) with
  | false, false =>
    Client_get this req opts log =
      (Rejected (ImdbError (Some "Missing one of req.id or req.name")), log)
  | true, _ =>
    exists reqopts p,
      Client_get this req opts log = (p, (log ++ [reqopts])%list) /\
      prop (searchParams reqopts) "t" = Some (VStr (option_toString (MovieRequest.name req))) /\
      prop (searchParams reqopts) "i" = None
  | false, true =>
    exists reqopts p,
      Client_get this req opts log = (p, (log ++ [reqopts])%list) /\
      prop (searchParams reqopts) "i" = Some (VStr (option_toString (MovieRequest.id req))) /\
      prop (searchParams reqopts) "t" = None
  end.
Proof.
  unfold Client_get.
  destruct (truthy_string (MovieRequest.name req)); [|destruct (truthy_string (MovieRequest.id req))].
  - unfold bind, ky, ret. eexists _, _. split; [done|]. simpl.
    destruct (MovieRequest.year req); split;
      (rewrite ?prop_app_fresh by done; rewrite ?prop_app_other by done; done).
  - unfold bind, ky, ret. eexists _, _. split; [done|]. simpl.
    destruct (MovieRequest.year req); split;
      (rewrite ?prop_app_fresh by done; rewrite ?prop_app_other by done; done).
  - done.
Qed.

(** Without an API key the module-level [get] returns a rejected promise,
    whereas the module-level [search] throws. *)
Lemma get_without_apiKey_rejects req opts log :
  apiKey opts = Absent ->
  get req opts log = (Normal (Rejected (ImdbError (Some "Missing api key in opts"))), log).
Proof. intros Hk. unfold get, Client_new. by rewrite Hk. Qed.

Lemma search_without_apiKey_throws req opts page log :
  apiKey opts = Absent ->
  search req opts page log = (Throw (ImdbError (Some "Missing api key in opts")), log).
Proof. intros Hk. unfold search, Client_new. by rewrite Hk. Qed.

(** C8. For a constructed client: [search] without a page is [search] with
    page 1; the page it resolves to stores the page number (1 by default),
    the request and the merged options; the request sent carries that page
    number and [totalresults] is the integer parsed from the [totalResults]
    string of the payload received; and [next()] on that page is a [search]
    with the stored request and options and the page number plus one, which
    sends one more request carrying exactly these. *)
Theorem search_pagination copts this request pg overrides log :
  Client_new copts = Normal this ->
  Client_search this request None overrides log =
    Client_search this request (Some 1) overrides log /\
  forall sr log',
    Client_search this request pg overrides log = (Fulfilled sr, log') ->
    page sr = default 1 pg /\
    req sr = request /\
    sr_opts sr = mergeOpts this overrides /\
    (exists reqopts data,
       log' = (log ++ [reqopts])%list /\ ky_search log reqopts = Some data /\
       prop (searchParams reqopts) "page" = Some (VStr (JsString.of_Z (default 1 pg))) /\
       totalresults sr = JsString.parseInt <$> OmdbSearch.totalResults data) /\
    SearchResults_next sr log' =
      search request (mergeOpts this overrides) (Some (default 1 pg + 1)) log' /\
    exists next_reqopts p,
      SearchResults_next sr log' = (Normal p, (log' ++ [next_reqopts])%list) /\
      searchParams next_reqopts =
        reqtoqueryobj request (of_apiKey (apiKey (mergeOpts this overrides)))
                      (default 1 pg + 1) /\
      req_timeout next_reqopts = timeout_of (mergeOpts this overrides).
Proof.
  intros Hclient. split; [done|].
  intros sr log'. unfold Client_search, bind, ky, ret.
  destruct (ky_search log _) as [data|] eqn:Hdata; simpl; [|done].
  unfold search_then. destruct (isError data); simpl; [done|].
  intros [= <- <-]. simpl. split; [done|]. split; [done|]. split; [done|]. split.
  - eexists _, data. split; [done|]. split; [exact Hdata|]. split; [|done].
    simpl. unfold reqtoqueryobj.
    destruct (SearchRequest.year request), (SearchRequest.reqtype request); simpl;
      rewrite ?prop_app_other by done; done.
  - split; [done|]. unfold SearchResults_next. simpl.
    unfold search, Client_new.
    assert (exists k, apiKey (mergeOpts this overrides) = Present k) as [k Hk].
    { unfold Client_new in Hclient. destruct (apiKey copts) as [|k0] eqn:Hk0; [done|].
      injection Hclient as <-. unfold mergeOpts. simpl. rewrite Hk0.
      destruct overrides as [o|]; simpl; [|by eexists].
      destruct (apiKey o); simpl; by eexists. }
    rewrite Hk. unfold bind, Client_search, bind, ky, ret. simpl.
    eexists _, _. split; [done|]. simpl. split; [|done].
    by rewrite Hk.
Qed.

End Properties.

(** ** Further properties of the code *)

Section Further.
Context `{RT : Runtime}.
Context `{EI : IsError OmdbObject, ES : IsError OmdbSearch.t, EN : IsError OmdbSeason.t}.
Context `{G : Guards} {T : @Transport RT}.

(** A string literal is in a list of literals. *)
Ltac in_list :=
  solve [repeat first [apply list_elem_of_here | apply list_elem_of_further]].

(** A string literal is not in a list of other literals. *)
Ltac not_in_list :=
  let H := fresh "Hin" in
  intros H;
  repeat (apply elem_of_cons in H as [H|H]; [discriminate H|]);
  by apply elem_of_nil in H.

(** *** Decimal strings *)

Lemma read_digits_acc d acc :
  JsString.read_digits (NilEmpty.string_of_uint d) true (Z.pos acc) =
  (true, Z.pos (Pos.of_uint_acc d acc)).
Proof.
  revert acc. induction d as [|d IH|d IH|d IH|d IH|d IH|d IH|d IH|d IH|d IH|d IH];
    intros acc; [reflexivity|..];
    cbn [NilEmpty.string_of_uint JsString.read_digits Pos.of_uint_acc];
    match goal with
    | |- context [JsString.is_digit ?c] =>
      change (JsString.is_digit c) with true; cbv iota
    end;
    match goal with
    | |- context [JsString.digit_val ?c] =>
      let k := eval vm_compute in (JsString.digit_val c) in
      change (JsString.digit_val c) with k
    end;
    match goal with
    | |- JsString.read_digits _ true ?v = (true, Z.pos (Pos.of_uint_acc _ ?a)) =>
      replace v with (Z.pos a) by lia
    end;
    apply IH.
Qed.

Lemma read_digits_uint d seen :
  JsString.read_digits (NilEmpty.string_of_uint d) seen 0 =
  (seen || negb (uint_is_nil d), Z.of_N (Pos.of_uint d)).
Proof.
  revert seen. induction d as [|d IH|d IH|d IH|d IH|d IH|d IH|d IH|d IH|d IH|d IH];
    intros seen; [by rewrite orb_false_r|..];
    cbn [NilEmpty.string_of_uint JsString.read_digits];
    match goal with
    | |- context [JsString.is_digit ?c] =>
      change (JsString.is_digit c) with true; cbv iota
    end.
  1: { change (10 * 0 + JsString.digit_val "0") with 0. rewrite IH. simpl.
       by rewrite orb_true_r. }
  all: rewrite orb_true_r; cbn [Pos.of_uint Z.of_N];
    match goal with
    | |- context [JsString.digit_val ?c] =>
      let k := eval vm_compute in (10 * 0 + JsString.digit_val c) in
      change (10 * 0 + JsString.digit_val c) with k
    end; apply read_digits_acc.
Qed.

Lemma strip_one_space_printable c r :
  (33 <= nat_of_ascii c < 128)%nat -> JsString.strip_one_space (String c r) = None.
Proof.
  intros Hc. unfold JsString.strip_one_space.
  set (n := nat_of_ascii c) in *.
  replace ((9 <=? n)%nat && (n <=? 13)%nat) with false
    by (symmetry; apply andb_false_intro2, Nat.leb_gt; lia).
  replace (n =? 32)%nat with false by (symmetry; apply Nat.eqb_neq; lia).
  replace (n =? 194)%nat with false by (symmetry; apply Nat.eqb_neq; lia).
  replace (n =? 225)%nat with false by (symmetry; apply Nat.eqb_neq; lia).
  replace (n =? 226)%nat with false by (symmetry; apply Nat.eqb_neq; lia).
  replace (n =? 227)%nat with false by (symmetry; apply Nat.eqb_neq; lia).
  replace (n =? 239)%nat with false by (symmetry; apply Nat.eqb_neq; lia).
  simpl. destruct r as [|b [|c' r]]; reflexivity.
Qed.

Lemma trimStart_printable c r :
  (33 <= nat_of_ascii c < 128)%nat -> JsString.trimStart (String c r) = String c r.
Proof.
  intros Hc. unfold JsString.trimStart. cbn [String.length JsString.trim_start_fuel].
  by rewrite strip_one_space_printable.
Qed.

Lemma trimStart_digit c r :
  JsString.is_digit c = true -> JsString.trimStart (String c r) = String c r.
Proof.
  intros Hc. apply trimStart_printable.
  unfold JsString.is_digit in Hc. apply andb_prop in Hc as [H1 H2].
  apply Nat.leb_le in H1, H2. lia.
Qed.

Lemma string_of_uint_head d :
  d <> Nil ->
  exists c r, NilEmpty.string_of_uint d = String c r /\ JsString.is_digit c = true.
Proof. destruct d; [done|..]; intros _; eexists _, _; split; reflexivity. Qed.

Lemma parseInt_digits d :
  d <> Nil ->
  JsString.parseInt (NilEmpty.string_of_uint d) = Some (Z.of_N (Pos.of_uint d)).
Proof.
  intros Hd. destruct (string_of_uint_head d Hd) as (c & r & Heq & Hc).
  unfold JsString.parseInt. rewrite Heq, trimStart_digit by done.
  destruct c as [[] [] [] [] [] [] [] []];
    try (exfalso; vm_compute in Hc; discriminate Hc);
    cbv beta iota; rewrite <- Heq, read_digits_uint; by destruct d.
Qed.

Lemma parseInt_of_Z n : JsString.parseInt (JsString.of_Z n) = Some n.
Proof.
  unfold JsString.of_Z. destruct n as [|p|p]; [reflexivity|..]; cbn [Z.to_int NilZero.string_of_int].
  - pose proof (Unsigned.to_uint_nonnil p) as Hnn.
    replace (NilZero.string_of_uint (Pos.to_uint p))
      with (NilEmpty.string_of_uint (Pos.to_uint p))
      by (destruct (Pos.to_uint p); done).
    rewrite parseInt_digits by done. by rewrite Unsigned.of_to.
  - pose proof (Unsigned.to_uint_nonnil p) as Hnn.
    replace (NilZero.string_of_uint (Pos.to_uint p))
      with (NilEmpty.string_of_uint (Pos.to_uint p))
      by (destruct (Pos.to_uint p); done).
    destruct (string_of_uint_head _ Hnn) as (c & r & Heq & Hc).
    unfold JsString.parseInt. rewrite trimStart_printable by (change (nat_of_ascii "-") with 45%nat; lia).
    cbv beta iota. rewrite read_digits_uint, Unsigned.of_to. by destruct (Pos.to_uint p).
Qed.

(** *** The fields of a [Movie] *)

Lemma Movie_new_split obj a0 k this :
  NoDup (getOwnPropertyNames obj) ->
  a0 ∈ getOwnPropertyNames obj ->
  (forall a, a ∈ getOwnPropertyNames obj -> a <> a0 -> k ∉ Movie_attr_writes a) ->
  k ∉ ["name"; "series"; "imdburl"] ->
  Movie_new obj = Normal this ->
  exists s1 s2,
    s1 !! k = ({["ratings" := VArr []]} : gmap string JsValue) !! k /\
    Movie_attr obj s1 a0 = Normal s2 /\ this !! k = s2 !! k.
Proof.
  intros Hnd Ha0 Honly Hk. unfold Movie_new.
  destruct (for_of _ _ _) as [this0|] eqn:Hloop; simpl; [|done].
  intros [= <-].
  apply list_elem_of_split in Ha0 as (pre & post & Hsplit).
  rewrite Hsplit in Hloop, Honly, Hnd.
  apply NoDup_app in Hnd as (_ & Hpre_ne & [Hpost_ne _]%NoDup_cons).
  apply for_of_split in Hloop as (s1 & s2 & Hpre & Hstep & Hpost).
  exists s1, s2. split; [|split; [done|]].
  - eapply Movie_loop_frame; [exact Hpre|].
    intros a Ha. apply Honly; [apply elem_of_app; by left|].
    intros ->. apply (Hpre_ne a0 Ha). by left.
  - rewrite !lookup_insert_ne by (intros <-; apply Hk; in_list).
    eapply Movie_loop_frame; [exact Hpost|].
    intros a Ha. apply Honly; [apply elem_of_app; right; by right|]. by intros ->.
Qed.

Lemma Movie_new_untouched obj k this :
  (forall a, a ∈ getOwnPropertyNames obj -> k ∉ Movie_attr_writes a) ->
  k ∉ ["name"; "series"; "imdburl"] ->
  Movie_new obj = Normal this ->
  this !! k = ({["ratings" := VArr []]} : gmap string JsValue) !! k.
Proof.
  intros Honly Hk. unfold Movie_new.
  destruct (for_of _ _ _) as [this0|] eqn:Hloop; simpl; [|done].
  intros [= <-]. rewrite !lookup_insert_ne by (intros <-; apply Hk; in_list).
  by eapply Movie_loop_frame.
Qed.

Lemma transTable_plain k : k ∉ Movie_special_attrs -> transTable k = None.
Proof.
  intros Hk. unfold transTable.
  rewrite !decide_False; [done|intros ->; apply Hk; in_list..].
Qed.

Lemma Movie_attr_plain obj s1 s2 k :
  k ∉ Movie_special_attrs ->
  Movie_attr obj s1 k = Normal s2 ->
  s2 !! JsString.toLowerCase k = Some (of_omdb (prop obj k)).
Proof.
  intros Hk. unfold Movie_attr. rewrite transTable_plain by done.
  rewrite !decide_False by (intros ->; apply Hk; in_list).
  intros [= <-]. by rewrite lookup_insert_eq.
Qed.

Lemma Movie_new_copied obj k v this :
  names_distinct obj ->
  prop obj k = Some v ->
  k ∉ Movie_special_attrs ->
  JsString.toLowerCase k ∉ Movie_reserved_keys ->
  Movie_new obj = Normal this ->
  get_prop this (JsString.toLowerCase k) = of_omdb (Some v).
Proof.
  intros Hnd Hv Hplain Hres Hthis.
  pose proof (prop_Some_name _ _ _ Hv) as Hin.
  destruct (Movie_new_split obj k (JsString.toLowerCase k) this)
    as (s1 & s2 & _ & Hstep & Hk); [by apply names_distinct_NoDup|done| | |done|].
  - intros a Ha Hne. eapply (only_writer obj k); [done..|].
    unfold special_keys. intros Hsp.
    apply elem_of_cons in Hsp as [Hsp|Hsp].
    { by apply toLowerCase_ne_upper in Hsp. }
    apply Hres. unfold Movie_reserved_keys.
    repeat (apply elem_of_cons in Hsp as [->|Hsp]; [in_list|]).
    by apply elem_of_nil in Hsp.
  - intros Hk. apply Hres. unfold Movie_reserved_keys.
    repeat (apply elem_of_cons in Hk as [->|Hk]; [in_list|]).
    by apply elem_of_nil in Hk.
  - unfold get_prop. rewrite Hk, (Movie_attr_plain obj s1 s2 k) by done. by rewrite Hv.
Qed.

Lemma lower_free (obj : OmdbObject) key :
  key ∉ JsString.toLowerCase <$> getOwnPropertyNames obj ->
  forall a, a ∈ getOwnPropertyNames obj -> JsString.toLowerCase a <> key.
Proof. intros Hfree a Ha Heq. apply Hfree. rewrite <- Heq. by apply list_elem_of_fmap_2. Qed.

(** X1. The [Movie] constructor copies every attribute it has no special case
    for. When the attribute names of the payload are ordinary names (ASCII,
    none the name of a member inherited from [Object.prototype], none
    [__proto__] once lower-cased) that differ by more than letter case, the
    value of an attribute other than [Year], [Released], [DVD],
    [imdbRating], [Genre], [Language], [imdbVotes] and [Ratings], whose
    lower-cased name is not a property the constructor assigns on its own,
    is found unchanged under the lower-cased name. *)
Theorem Movie_copies_attribute obj k v this :
  names_distinct obj ->
  plain_names obj = true ->
  prop obj k = Some v ->
  k ∉ Movie_special_attrs ->
  JsString.toLowerCase k ∉ Movie_reserved_keys ->
  Movie_new obj = Normal this ->
  get_prop this (JsString.toLowerCase k) = of_omdb (Some v).
Proof. intros Hnd _. by apply Movie_new_copied. Qed.

(** The attributes [transTable] renames, with the property each one
    becomes. *)
Lemma Movie_attr_writes_target attr key a :
  (attr, key) ∈ [("Genre", "genres"); ("Language", "languages");
                 ("imdbVotes", "votes"); ("imdbRating", "rating")] ->
  key ∈ Movie_attr_writes a -> a = attr \/ JsString.toLowerCase a = key.
Proof.
  intros Hpair. unfold Movie_attr_writes, transTable.
  repeat (apply elem_of_cons in Hpair as [[= -> ->]|Hpair]);
    [..|by apply elem_of_nil in Hpair];
    repeat case_decide; subst;
    rewrite ?elem_of_cons, ?elem_of_nil; intuition (try discriminate; auto).
Qed.

Lemma Movie_attr_renamed obj s1 s2 attr key :
  (attr, key) ∈ [("Genre", "genres"); ("Language", "languages"); ("imdbVotes", "votes")] ->
  Movie_attr obj s1 attr = Normal s2 ->
  s2 !! key = Some (of_omdb (prop obj attr)).
Proof.
  intros Hpair. unfold Movie_attr, transTable.
  repeat (apply elem_of_cons in Hpair as [[= -> ->]|Hpair]);
    [..|by apply elem_of_nil in Hpair];
    repeat (first [rewrite decide_True by done | rewrite decide_False by done]);
    intros [= <-]; by rewrite lookup_insert_eq.
Qed.

(** X2. [Genre], [Language] and [imdbVotes] are stored unchanged as [genres],
    [languages] and [votes], when no attribute of the payload has that
    name once lower-cased. *)
Theorem Movie_renames_attribute obj attr key v this :
  (attr, key) ∈ [("Genre", "genres"); ("Language", "languages"); ("imdbVotes", "votes")] ->
  names_distinct obj ->
  key ∉ JsString.toLowerCase <$> getOwnPropertyNames obj ->
  prop obj attr = Some v ->
  Movie_new obj = Normal this ->
  get_prop this key = of_omdb (Some v).
Proof.
  intros Hpair Hnd Hfree0 Hv Hthis. pose proof (lower_free _ _ Hfree0) as Hfree.
  pose proof (prop_Some_name _ _ _ Hv) as Hin.
  assert ((attr, key) ∈ [("Genre", "genres"); ("Language", "languages");
                         ("imdbVotes", "votes"); ("imdbRating", "rating")]) as Hpair'.
  { repeat (apply elem_of_cons in Hpair as [->|Hpair]; [in_list|]).
    by apply elem_of_nil in Hpair. }
  destruct (Movie_new_split obj attr key this)
    as (s1 & s2 & _ & Hstep & Hk); [by apply names_distinct_NoDup|done| | |done|].
  - intros a Ha Hne Hw.
    destruct (Movie_attr_writes_target attr key a Hpair' Hw) as [?|Hlow]; [done|].
    by apply (Hfree a).
  - repeat (apply elem_of_cons in Hpair as [[= -> ->]|Hpair]);
      [..|by apply elem_of_nil in Hpair]; not_in_list.
  - unfold get_prop. rewrite Hk, (Movie_attr_renamed obj s1 s2 attr key) by done.
    by rewrite Hv.
Qed.

Lemma Movie_attr_rating obj s1 s2 :
  Movie_attr obj s1 "imdbRating" = Normal s2 ->
  s2 !! "rating" =
    Some (VFloat (default float_zero (parseFloat (OmdbValue_toString (prop obj "imdbRating"))))).
Proof.
  unfold Movie_attr. rewrite !decide_False by done. rewrite decide_True by done.
  intros [= <-]. change (default "undefined" (transTable "imdbRating")) with "rating".
  by rewrite lookup_insert_eq.
Qed.

(** X3. [rating] is [imdbRating] read as a float, and zero when it does not
    read as one, as for [N/A]; no attribute of the payload is named
    [rating] once lower-cased. *)
Theorem Movie_rating obj s this :
  names_distinct obj ->
  "rating" ∉ JsString.toLowerCase <$> getOwnPropertyNames obj ->
  prop obj "imdbRating" = Some (OStr s) ->
  Movie_new obj = Normal this ->
  get_prop this "rating" =
    match parseFloat s with
    | Some x => VFloat x
    | None => VFloat float_zero
    end.
Proof.
  intros Hnd Hfree0 Hs Hthis. pose proof (lower_free _ _ Hfree0) as Hfree.
  pose proof (prop_Some_name _ _ _ Hs) as Hin.
  destruct (Movie_new_split obj "imdbRating" "rating" this)
    as (s1 & s2 & _ & Hstep & Hk); [by apply names_distinct_NoDup|done| |not_in_list|done|].
  - intros a Ha Hne Hw.
    destruct (Movie_attr_writes_target "imdbRating" "rating" a) as [?|Hlow];
      [in_list|done|done|].
    by apply (Hfree a).
  - unfold get_prop. rewrite Hk, (Movie_attr_rating obj s1 s2) by done.
    rewrite Hs. simpl. by destruct (parseFloat s).
Qed.

Lemma Movie_attr_Ratings obj s1 s2 l acc :
  prop obj "Ratings" = Some (ORatings l) ->
  s1 !! "ratings" = Some (VArr acc) ->
  Movie_attr obj s1 "Ratings" = Normal s2 ->
  s2 !! "ratings" =
    Some (VArr (acc ++ (NewRating <$>
      ((fun r => {| source := Some (Source r); value := Some (Value r) |}) <$> l)))).
Proof.
  intros Hl Hacc. unfold Movie_attr. rewrite Hl.
  rewrite !decide_False by done. change (transTable "Ratings") with (@None string).
  rewrite decide_True by done. simpl. unfold push_ratings.
  destruct l as [|r l]; simpl.
  - intros [= <-]. by rewrite Hacc, app_nil_r.
  - rewrite Hacc. intros [= <-]. by rewrite lookup_insert_eq.
Qed.

(** X4. [ratings] holds one entry for each element of [Ratings], in the same
    order, with its [Source] and [Value]; it is the empty array when no
    attribute of the payload is named [ratings] once lower-cased. *)
Theorem Movie_ratings obj this :
  names_distinct obj ->
  Movie_new obj = Normal this ->
  (forall l, prop obj "Ratings" = Some (ORatings l) ->
     get_prop this "ratings" =
       VArr (NewRating <$>
         ((fun r => {| source := Some (Source r); value := Some (Value r) |}) <$> l))) /\
  ("ratings" ∉ JsString.toLowerCase <$> getOwnPropertyNames obj ->
     get_prop this "ratings" = VArr []).
Proof.
  intros Hnd Hthis. split.
  - intros l Hl. pose proof (prop_Some_name _ _ _ Hl) as Hin.
    destruct (Movie_new_split obj "Ratings" "ratings" this)
      as (s1 & s2 & Hs1 & Hstep & Hk);
      [by apply names_distinct_NoDup|done| |not_in_list|done|].
    + intros a Ha Hne. eapply (only_writer obj "Ratings"); [done..|]. not_in_list.
    + rewrite lookup_singleton_eq in Hs1.
      unfold get_prop. by rewrite Hk, (Movie_attr_Ratings obj s1 s2 l []).
  - intros Hfree0. pose proof (lower_free _ _ Hfree0) as Hfree. unfold get_prop.
    rewrite (Movie_new_untouched obj "ratings" this); [by rewrite lookup_singleton_eq| |not_in_list|done].
    intros a Ha Hw. apply Movie_attr_writes_lower in Hw as [Hsp|Hlow].
    + revert Hsp. not_in_list.
    + by apply (Hfree a).
Qed.

Lemma Movie_new_imdburl obj this :
  Movie_new obj = Normal this ->
  get_prop this "imdburl" =
    VStr ("https://www.imdb.com/title/" ++ JsValue_toString (get_prop this "imdbid")).
Proof.
  unfold Movie_new. destruct (for_of _ _ _) as [this0|]; simpl; [|done].
  intros [= <-]. unfold get_prop. rewrite lookup_insert_eq. simpl.
  by rewrite !(lookup_insert_ne _ _ "imdbid") by done.
Qed.

(** X5. [imdburl] is the prefix [https://www.imdb.com/title/] followed by
    [imdbid] as a string: by the [imdbID] of the payload when it has one,
    and by [undefined] when no attribute is named [imdbid] once
    lower-cased. The constructor does not throw for a missing id. *)
Theorem Movie_imdburl obj this :
  Movie_new obj = Normal this ->
  get_prop this "imdburl" =
    VStr ("https://www.imdb.com/title/" ++ JsValue_toString (get_prop this "imdbid")) /\
  (names_distinct obj ->
   forall i, prop obj "imdbID" = Some (OStr i) ->
     get_prop this "imdbid" = VStr i /\
     get_prop this "imdburl" = VStr ("https://www.imdb.com/title/" ++ i)) /\
  ("imdbid" ∉ JsString.toLowerCase <$> getOwnPropertyNames obj ->
   get_prop this "imdburl" = VStr "https://www.imdb.com/title/undefined").
Proof.
  intros Hthis. pose proof (Movie_new_imdburl obj this Hthis) as Hurl.
  split; [done|]. split.
  - intros Hnd i Hi.
    assert (get_prop this "imdbid" = VStr i) as Hid.
    { apply (Movie_new_copied obj "imdbID" (OStr i) this); [done|done| | |done].
      - unfold Movie_special_attrs. not_in_list.
      - unfold Movie_reserved_keys. not_in_list. }
    by rewrite Hurl, Hid.
  - intros Hfree0. pose proof (lower_free _ _ Hfree0) as Hfree. rewrite Hurl. unfold get_prop at 1.
    rewrite (Movie_new_untouched obj "imdbid" this); [done| |not_in_list|done].
    intros a Ha Hw. apply Movie_attr_writes_lower in Hw as [Hsp|Hlow].
    + revert Hsp. not_in_list.
    + by apply (Hfree a).
Qed.

Lemma Movie_attr_writes_lower_case attr k :
  k ∈ Movie_attr_writes attr -> k = "_yearData" \/ has_upper k = false.
Proof.
  intros [Hsp|<-]%Movie_attr_writes_lower; [|right; apply toLowerCase_no_upper].
  unfold special_keys in Hsp.
  apply elem_of_cons in Hsp as [->|Hsp]; [by left|]. right.
  repeat (apply elem_of_cons in Hsp as [->|Hsp]; [done|]). by apply elem_of_nil in Hsp.
Qed.

(** X6. For a payload whose attribute names are ordinary names (ASCII, none
    the name of a member inherited from [Object.prototype], none
    [__proto__] once lower-cased): apart from [_yearData], no property the
    [Movie] constructor assigns has an upper-case letter in its name. *)
Theorem Movie_keys_lower_case obj this k :
  plain_names obj = true ->
  Movie_new obj = Normal this ->
  is_Some (this !! k) ->
  k = "_yearData" \/ has_upper k = false.
Proof.
  intros _. unfold Movie_new.
  destruct (for_of _ _ _) as [this0|] eqn:Hloop; simpl; [|done].
  intros [= <-].
  assert (forall k, is_Some (this0 !! k) -> k = "_yearData" \/ has_upper k = false) as Hinv.
  { apply (for_of_invariant (Movie_attr obj)
             (fun s : gmap string JsValue =>
                forall k, is_Some (s !! k) -> k = "_yearData" \/ has_upper k = false)
             _ _ _) with (3 := Hloop).
    - intros a s s' _ Hs Hstep k' Hk'.
      destruct (decide (k' ∈ Movie_attr_writes a)) as [Hw|Hnw].
      + by eapply Movie_attr_writes_lower_case.
      + apply Hs. by rewrite <- (Movie_attr_frame obj s a s' k').
    - intros k' [v Hk']. apply lookup_singleton_Some in Hk' as [<- _]. by right. }
  intros Hk.
  destruct (decide (k = "imdburl")) as [->|?]; [by right|].
  destruct (decide (k = "series")) as [->|?]; [by right|].
  destruct (decide (k = "name")) as [->|?]; [by right|].
  apply Hinv. by rewrite !lookup_insert_ne in Hk by done.
Qed.

(** *** Episodes built on their own *)

Lemma hasOwnProperty_prop {A} (obj : list (string * A)) attr :
  hasOwnProperty obj attr = match prop obj attr with Some _ => true | None => false end.
Proof.
  unfold hasOwnProperty. destruct (prop obj attr).
  - by rewrite bool_decide_eq_true_2.
  - rewrite bool_decide_eq_false_2; [done|]. by intros [? ?].
Qed.

Lemma Movie_new_ok obj :
  names_distinct obj -> Year_error obj = None -> exists this, Movie_new obj = Normal this.
Proof. intros Hnd Hy. pose proof (Movie_new_total obj Hnd) as H. by rewrite Hy in H. Qed.

(** X8. An episode built without a season argument, from a payload the [Movie]
    constructor accepts, reads its season from [Season] and throws
    [invalid season] when that is not a number, also when it is missing.
    It then reads [Episode], if the payload has one, and throws
    [invalid episode] when that is not a number; the parsed numbers
    replace the strings the [Movie] constructor has copied. *)
Theorem Episode_standalone obj :
  names_distinct obj -> Year_error obj = None ->
  match JsString.parseInt (OmdbValue_toString (prop obj "Season")) with
  | None => Episode_new obj None = Throw (TypeError "invalid season")
  | Some n =>
    match prop obj "Episode" with
    | None =>
      exists this, Episode_new obj None = Normal this /\
                   get_prop this "season" = VNum (Some n)
    | Some e =>
      match JsString.parseInt (OmdbValue_toString (Some e)) with
      | None => Episode_new obj None = Throw (TypeError "invalid episode")
      | Some m =>
        exists this, Episode_new obj None = Normal this /\
                     get_prop this "season" = VNum (Some n) /\
                     get_prop this "episode" = VNum (Some m)
      end
    end
  end.
Proof.
  intros Hnd Hy. destruct (Movie_new_ok obj Hnd Hy) as [this0 Hthis0].
  unfold Episode_new. rewrite Hthis0. cbn [cbind].
  destruct (JsString.parseInt (OmdbValue_toString (prop obj "Season"))) as [n|]; [|done].
  cbn [cbind]. rewrite hasOwnProperty_prop.
  destruct (prop obj "Episode") as [e|].
  - destruct (JsString.parseInt (OmdbValue_toString (Some e))) as [m|]; [|done].
    eexists. split; [done|]. unfold get_prop.
    rewrite lookup_insert_eq. rewrite lookup_insert_ne by done. by rewrite lookup_insert_eq.
  - eexists. split; [done|]. unfold get_prop. by rewrite lookup_insert_eq.
Qed.

(** X9. With a season argument the [Season] of the payload is not consulted:
    [season] is the argument, even NaN, and only an [Episode] that is not a
    number makes the constructor throw. A payload without [Episode] is
    accepted and gets no episode number. *)
Theorem Episode_with_season obj season :
  names_distinct obj -> Year_error obj = None ->
  match prop obj "Episode" with
  | None =>
    exists this, Episode_new obj (Some season) = Normal this /\
                 get_prop this "season" = VNum season
  | Some e =>
    match JsString.parseInt (OmdbValue_toString (Some e)) with
    | None => Episode_new obj (Some season) = Throw (TypeError "invalid episode")
    | Some m =>
      exists this, Episode_new obj (Some season) = Normal this /\
                   get_prop this "season" = VNum season /\
                   get_prop this "episode" = VNum (Some m)
    end
  end.
Proof.
  intros Hnd Hy. destruct (Movie_new_ok obj Hnd Hy) as [this0 Hthis0].
  unfold Episode_new. rewrite Hthis0. cbn [cbind]. rewrite hasOwnProperty_prop.
  destruct (prop obj "Episode") as [e|].
  - destruct (JsString.parseInt (OmdbValue_toString (Some e))) as [m|]; [|done].
    eexists. split; [done|]. unfold get_prop.
    rewrite lookup_insert_eq. rewrite lookup_insert_ne by done. by rewrite lookup_insert_eq.
  - eexists. split; [done|]. unfold get_prop. by rewrite lookup_insert_eq.
Qed.

(** *** The years and the seasons of a show *)

Lemma contains_char_false_In c s :
  contains_char c s = false -> forall c', In c' (list_ascii_of_string s) -> c' <> c.
Proof.
  induction s as [|c0 s IH]; simpl; [done|].
  intros [Hc0 Hs]%orb_false_elim c' [<-|Hin].
  - by apply Ascii.eqb_neq.
  - by apply IH.
Qed.

Lemma split_hyphen_none s :
  contains_char "-" s = false -> JsString.split_hyphen s = [s].
Proof.
  induction s as [|c s IH]; simpl; [done|].
  intros [Hc Hs]%orb_false_elim. rewrite Hc, IH by done. done.
Qed.

Lemma TVShow_new_ok obj options y :
  names_distinct obj -> prop obj "Year" = Some (OStr y) ->
  year_error (OStr y) = None ->
  exists tvShow, TVShow_new obj options = Normal tvShow /\
    start_year tvShow =
      JsString.parseInt (option_toString (JsString.split_hyphen y !! 0%nat)) /\
    end_year tvShow =
      nonzero_or_undefined
        (JsString.parseInt (option_toString (JsString.split_hyphen y !! 1%nat))) /\
    totalseasons tvShow =
      JsString.parseInt (OmdbValue_toString (prop obj "totalSeasons")) /\
    _episodes tvShow = [] /\ opts tvShow = options.
Proof.
  intros Hnd Hy Hok.
  destruct (Movie_new_ok obj Hnd) as [this Hthis].
  { unfold Year_error. by rewrite Hy. }
  destruct (Movie_new_yearData obj y this Hnd Hy Hthis) as [Hdata _].
  unfold TVShow_new. rewrite Hthis. simpl.
  unfold get_prop in Hdata.
  destruct (this !! "_yearData") as [v|]; simpl in Hdata; [|done]. subst v. simpl.
  eexists. split; [done|]. done.
Qed.

(** X10. For a [Year] of the form [a-b] with no other hyphen that the [Movie]
    constructor accepts, [start_year] is the integer read from [a], and
    [end_year] the integer read from [b], or [undefined] when [b] reads as
    NaN or as zero. *)
Theorem TVShow_hyphen_years obj opts a b :
  names_distinct obj ->
  prop obj "Year" = Some (OStr (a ++ String "-" b)) ->
  year_error (OStr (a ++ String "-" b)) = None ->
  contains_char "-" a = false -> contains_char "-" b = false ->
  exists tvShow, TVShow_new obj opts = Normal tvShow /\
    start_year tvShow = JsString.parseInt a /\
    end_year tvShow = nonzero_or_undefined (JsString.parseInt b).
Proof.
  intros Hnd Hy Hok Ha Hb.
  destruct (TVShow_new_ok obj opts _ Hnd Hy Hok) as (tvShow & Hnew & Hstart & Hend & _).
  exists tvShow. split; [done|].
  rewrite split_hyphen_app in Hstart, Hend by (by apply contains_char_false_In).
  rewrite split_hyphen_none in Hend by done. done.
Qed.

(** X11. For a [Year] without a hyphen that the [Movie] constructor accepts, the
    show is built with [start_year] read from the whole string and
    [end_year] undefined. *)
Theorem TVShow_no_hyphen_no_end obj opts y :
  names_distinct obj ->
  prop obj "Year" = Some (OStr y) ->
  year_error (OStr y) = None ->
  contains_char "-" y = false ->
  exists tvShow, TVShow_new obj opts = Normal tvShow /\
    start_year tvShow = JsString.parseInt y /\
    end_year tvShow = None.
Proof.
  intros Hnd Hy Hok Hno.
  destruct (TVShow_new_ok obj opts _ Hnd Hy Hok) as (tvShow & Hnew & Hstart & Hend & _).
  exists tvShow. split; [done|].
  rewrite split_hyphen_none in Hstart, Hend by done. done.
Qed.

(** X12. From a payload without [Year] a [Movie] is built, but [TVShow] throws a
    [TypeError]: [_yearData] was never assigned, and the constructor calls
    [split] on it. *)
Theorem TVShow_needs_Year obj opts :
  names_distinct obj ->
  prop obj "Year" = None ->
  (exists this, Movie_new obj = Normal this) /\
  (exists message, TVShow_new obj opts = Throw (TypeError message)).
Proof.
  intros Hnd Hy.
  destruct (Movie_new_ok obj Hnd) as [this Hthis].
  { unfold Year_error. by rewrite Hy. }
  split; [by exists this|].
  unfold TVShow_new. rewrite Hthis. simpl.
  rewrite (Movie_new_untouched obj "_yearData" this); [| |not_in_list|done].
  - rewrite lookup_singleton_ne by done. simpl. by eexists.
  - intros a Ha Hw. apply Movie_attr_writes_yearData in Hw as ->.
    apply prop_is_Some in Ha as [v Hv]. congruence.
Qed.

(** X13. With an empty cache and a [totalseasons] that is NaN, zero or negative,
    [episodes()] makes no request, resolves to the empty list and leaves
    the show as it was. *)
Theorem episodes_without_seasons tvShow log :
  _episodes tvShow = [] ->
  match totalseasons tvShow with
  | Some n => n <= 0
  | None => True
  end ->
  TVShow_episodes tvShow log = ((Fulfilled [], tvShow), log).
Proof.
  intros Hempty Hn. rewrite TVShow_episodes_fetch by done.
  assert (season_requests tvShow = []) as ->.
  { unfold season_requests, season_numbers.
    destruct (totalseasons tvShow) as [n|]; [|done].
    by replace (Z.to_nat n) with 0%nat by lia. }
  assert (set_episodes tvShow [] = tvShow) as Hsame
    by (rewrite <- Hempty; apply set_episodes_same).
  simpl. by rewrite app_nil_r, Hsame.
Qed.

(** *** More on the aggregation of episodes *)

Lemma season_numbers_lookup n k i :
  season_numbers (Some n) !! k = Some i -> i = Z.of_nat (S k) /\ (k < Z.to_nat n)%nat.
Proof.
  unfold season_numbers. rewrite list_lookup_fmap.
  destruct (seq 1 (Z.to_nat n) !! k) as [j|] eqn:Hj; [|done].
  apply lookup_seq in Hj as [-> Hlt]. simpl. by intros [= <-].
Qed.

(** X14. With an empty cache and [totalseasons = n], [episodes()] makes exactly
    [n] requests (none for a negative [n]), in the order of the seasons:
    the [k]-th, counting from zero, asks the API URL for [Season = k + 1]
    of the [imdbid] of the show, as JSON, with the API key and the timeout
    of the options stored in the show. *)
Theorem episodes_requests tvShow log n :
  _episodes tvShow = [] ->
  totalseasons tvShow = Some n ->
  exists reqs,
    (TVShow_episodes tvShow log).2 = (log ++ reqs)%list /\
    length reqs = Z.to_nat n /\
    forall k reqopts,
      reqs !! k = Some reqopts ->
      prop (searchParams reqopts) "Season" = Some (VNum (Some (Z.of_nat (S k)))) /\
      prop (searchParams reqopts) "i" = Some (get_prop (props tvShow) "imdbid") /\
      prop (searchParams reqopts) "apikey" = Some (of_apiKey (apiKey (opts tvShow))) /\
      prop (searchParams reqopts) "r" = Some (VStr "json") /\
      req_timeout reqopts = timeout_of (opts tvShow) /\
      url reqopts = omdbapi.
Proof.
  intros Hempty Hn. exists (season_requests tvShow).
  split; [by rewrite TVShow_episodes_fetch|].
  unfold season_requests. rewrite Hn. split.
  - unfold season_numbers. by rewrite !length_fmap, length_seq.
  - intros k reqopts. rewrite list_lookup_fmap.
    destruct (season_numbers (Some n) !! k) as [i|] eqn:Hi; [|done].
    apply season_numbers_lookup in Hi as [-> _]. by intros [= <-].
Qed.

(** X15. When [episodes()] resolves to a non-empty list, the show it leaves has
    that list cached, and a further call on it resolves to the same list
    without a request, whatever was requested in between. *)
Theorem episodes_memoized tvShow log eps tvShow' log' log2 :
  TVShow_episodes tvShow log = ((Fulfilled eps, tvShow'), log') ->
  eps <> [] ->
  _episodes tvShow' = eps /\
  TVShow_episodes tvShow' log2 = ((Fulfilled eps, tvShow'), log2).
Proof.
  intros Hrun Hne.
  assert (_episodes tvShow' = eps) as Hcache.
  { destruct (decide (_episodes tvShow = [])) as [Hempty|Hfull].
    - rewrite TVShow_episodes_fetch in Hrun by done.
      destruct (Promise_all _) as [epData|]; [|done].
      destruct (episodes_then epData) as [eps0|]; [|done].
      by injection Hrun as <- <- <-.
    - rewrite TVShow_episodes_cached in Hrun by done. by injection Hrun as <- <- <-. }
  split; [done|]. rewrite TVShow_episodes_cached by (by rewrite Hcache).
  by rewrite Hcache.
Qed.

Lemma Promise_all_None {A} (l : list (option A)) :
  None ∈ l -> Promise_all l = None.
Proof.
  induction l as [|[a|] l IH]; simpl; [by intros ?%elem_of_nil| |done].
  intros [?|Hin]%elem_of_cons; [done|]. by rewrite IH.
Qed.

Lemma receive_lookup_Some {A} (answer : list KyRequest -> KyRequest -> option A) reqs log i r :
  reqs !! i = Some r ->
  receive answer reqs log !! i = Some (answer (log ++ take i reqs)%list r).
Proof.
  revert log i. induction reqs as [|r0 reqs IH]; intros log i; [done|].
  destruct i as [|i]; simpl.
  - intros [= ->]. by rewrite app_nil_r.
  - intros Hr. rewrite (IH _ _ Hr). by rewrite <- app_assoc.
Qed.

(** X16. With an empty cache, when the request for one of the seasons fails,
    [episodes()] rejects with the error of the transport and leaves the
    cache empty; the requests for all the seasons were made nevertheless. *)
Theorem episodes_request_failure tvShow log k reqopts :
  _episodes tvShow = [] ->
  season_requests tvShow !! k = Some reqopts ->
  ky_season (log ++ take k (season_requests tvShow))%list reqopts = None ->
  TVShow_episodes tvShow log =
    ((Rejected RequestError, tvShow), (log ++ season_requests tvShow)%list).
Proof.
  intros Hempty Hk Hfail. rewrite TVShow_episodes_fetch by done.
  rewrite Promise_all_None; [done|].
  apply list_elem_of_lookup. exists k.
  by rewrite (receive_lookup_Some _ _ _ _ _ Hk), Hfail.
Qed.

Lemma season_episodes_length eps datum eps' :
  season_episodes eps datum = Normal eps' ->
  length eps' = (length eps + entry_count datum)%nat.
Proof.
  unfold season_episodes, entry_count. destruct (isError datum); [done|].
  destruct (OmdbSeason.Episodes datum) as [entries|]; [|done].
  intros (new & -> & Hlen & _)%season_entries_spec.
  rewrite length_app, Hlen. unfold getOwnPropertyNames. by rewrite length_fmap.
Qed.

Lemma for_of_season_episodes_length epData eps eps' :
  for_of season_episodes epData eps = Normal eps' ->
  length eps' = (length eps + sum_list_with entry_count epData)%nat.
Proof.
  revert eps. induction epData as [|datum epData IH]; intros eps; simpl.
  - intros [= <-]. lia.
  - destruct (season_episodes eps datum) as [eps1|] eqn:Hd; simpl; [|done].
    apply season_episodes_length in Hd. intros ->%IH. lia.
Qed.

(** X17. When [episodes()] on a show with an empty cache resolves, every season
    request was answered, and the list it resolves to, which is also the
    list the show caches, has as many episodes as the [Episodes] mappings
    of the answers have entries altogether. *)
Theorem episodes_count tvShow log eps tvShow' log' :
  _episodes tvShow = [] ->
  TVShow_episodes tvShow log = ((Fulfilled eps, tvShow'), log') ->
  _episodes tvShow' = eps /\
  exists epData,
    Promise_all (receive ky_season (season_requests tvShow) log) = Some epData /\
    length epData = length (season_requests tvShow) /\
    length eps = sum_list_with entry_count epData.
Proof.
  intros Hempty. rewrite TVShow_episodes_fetch by done.
  destruct (Promise_all _) as [epData|] eqn:Hall; [|done].
  destruct (episodes_then epData) as [eps0|] eqn:Hthen; [|done].
  intros [= <- <- <-]. split; [done|]. exists epData. split; [done|]. split.
  - by rewrite (Promise_all_length _ _ Hall), receive_length.
  - by apply for_of_season_episodes_length in Hthen.
Qed.

(** X18. A season payload that is not an error and has no [Episodes] makes
    [episodes()] reject and leaves the cache empty; when the payloads
    before it were read without an error, the rejection is a
    [TypeError]. *)
Theorem episodes_missing_Episodes tvShow log pre datum post :
  _episodes tvShow = [] ->
  Promise_all (receive ky_season (season_requests tvShow) log) =
    Some (pre ++ datum :: post)%list ->
  isError datum = false ->
  OmdbSeason.Episodes datum = None ->
  exists e,
    TVShow_episodes tvShow log =
      ((Rejected e, tvShow), (log ++ season_requests tvShow)%list) /\
    (forall built, episodes_then pre = Normal built -> exists message, e = TypeError message).
Proof.
  intros Hempty Hall Herr Hnone. rewrite TVShow_episodes_fetch by done. rewrite Hall.
  unfold episodes_then. rewrite for_of_app.
  destruct (for_of season_episodes pre []) as [built|e]; simpl.
  - unfold season_episodes at 1. rewrite Herr, Hnone. simpl.
    eexists. split; [done|]. intros _ _. by eexists.
  - exists e. split; [done|]. done.
Qed.

(** X19. When upstream labels the answer to each season request with the
    number that was asked for (and there are fewer than 2^53 seasons, so
    that [parseInt] reads every label exactly), the list [episodes()]
    resolves to is the concatenation of one group for each request, in the
    order of the requests; the [i]-th group, counting from zero, holds the
    episodes built from the entries of the answer to the [i]-th request,
    in order; and every episode in it has [season = i + 1]. *)
Theorem episodes_season_of_request tvShow log eps tvShow' log' :
  _episodes tvShow = [] ->
  Z.of_nat (length (season_requests tvShow)) < 2 ^ 53 ->
  TVShow_episodes tvShow log = ((Fulfilled eps, tvShow'), log') ->
  (forall k reqopts datum,
     season_requests tvShow !! k = Some reqopts ->
     ky_season (log ++ take k (season_requests tvShow))%list reqopts = Some datum ->
     OmdbSeason.Season datum = Some (JsString.of_Z (Z.of_nat (S k)))) ->
  exists groups,
    eps = concat groups /\
    length groups = length (season_requests tvShow) /\
    forall i group,
      groups !! i = Some group ->
      (exists reqopts datum,
         season_requests tvShow !! i = Some reqopts /\
         ky_season (log ++ take i (season_requests tvShow))%list reqopts = Some datum /\
         built_from datum group) /\
      (forall ep, ep ∈ group -> get_prop ep "season" = VNum (Some (Z.of_nat (S i)))).
Proof.
  intros Hempty _. rewrite TVShow_episodes_fetch by done.
  destruct (Promise_all _) as [epData|] eqn:Hall; [|done].
  destruct (episodes_then epData) as [eps0|] eqn:Hthen; [|done].
  intros [= <- <- <-] Hlabel. unfold episodes_then in Hthen.
  apply for_of_season_episodes_groups in Hthen as (groups & -> & Hgroups).
  exists groups. split; [done|]. split.
  - rewrite <- (Forall2_length _ _ _ Hgroups).
    by rewrite (Promise_all_length _ _ Hall), receive_length.
  - intros i group Hi.
    destruct (Forall2_lookup_r _ _ _ _ _ Hgroups Hi) as (datum & Hdatum & Hbuilt).
    apply season_episodes_built in Hbuilt as (_ & Hfrom & Hseason).
    apply (Promise_all_lookup _ _ _ _ Hall) in Hdatum.
    apply receive_lookup in Hdatum as (r & Hr & Hanswer).
    split; [by exists r, datum|].
    intros ep Hep. rewrite Forall_forall in Hseason. rewrite (Hseason ep Hep).
    unfold payload_season. rewrite (Hlabel i r datum Hr (eq_sym Hanswer)). simpl.
    by rewrite parseInt_of_Z.
Qed.

Lemma TVShow_new_opts obj options tvShow :
  TVShow_new obj options = Normal tvShow ->
  opts tvShow = options /\ _episodes tvShow = [].
Proof.
  unfold TVShow_new. destruct (Movie_new obj) as [this|]; simpl; [|done].
  destruct (this !! "_yearData") as [[]|]; simpl; try done. by intros [= <-].
Qed.

Lemma get_then_show request options data tvShow :
  get_then request options data = Normal (ITVShow tvShow) ->
  opts tvShow = options /\ _episodes tvShow = [].
Proof.
  unfold get_then, fmap_completion, Game_new.
  destruct (isError data); [done|].
  destruct (isMovie data); [destruct (Movie_new data); done|].
  destruct (isGame data); [destruct (Movie_new data); done|].
  destruct (isTvshow data).
  - destruct (TVShow_new data options) as [t|] eqn:Ht; simpl; [|done].
    intros [= ->]. by apply TVShow_new_opts in Ht.
  - destruct (isEpisode data); [|done]. destruct (Episode_new data None); done.
Qed.

(** X20. A show [Client.get] resolves to has an empty cache and stores the
    options of that call, the options of the client overridden by those
    of the call: every season request of the show carries their API key
    and their timeout. *)
Theorem get_show_keeps_options this request overrides log tvShow log' :
  Client_get this request overrides log = (Fulfilled (ITVShow tvShow), log') ->
  opts tvShow = mergeOpts this overrides /\
  _episodes tvShow = [] /\
  forall i,
    req_timeout (season_reqopts tvShow i) = timeout_of (mergeOpts this overrides) /\
    prop (searchParams (season_reqopts tvShow i)) "apikey" =
      Some (of_apiKey (apiKey (mergeOpts this overrides))).
Proof.
  intros Hget.
  assert (opts tvShow = mergeOpts this overrides /\ _episodes tvShow = []) as [Hopts Hcache].
  { unfold Client_get in Hget.
    destruct (truthy_string (MovieRequest.name request));
      [|destruct (truthy_string (MovieRequest.id request)); [|done]];
      unfold bind, ky, ret in Hget;
      match type of Hget with
      | (then_ ?d _, _) = _ => destruct d as [data|]; simpl in Hget; [|done]
      end;
      destruct (get_then request (mergeOpts this overrides) data) as [item|] eqn:Hthen;
      simpl in Hget; try done;
      injection Hget as -> _; by apply get_then_show in Hthen. }
  split; [done|]. split; [done|]. intros i. unfold season_reqopts. simpl.
  by rewrite Hopts.
Qed.

(** *** Years written as decimal numbers *)

Lemma all_digits_no_range s : all_digits s = true -> JsString.year_range_match s = false.
Proof.
  induction s as [|c s IH]; [done|].
  intros Hall. pose proof Hall as Hall'. simpl in Hall'.
  apply andb_prop in Hall' as [Hc Hs].
  cbn [JsString.year_range_match]. rewrite (IH Hs), orb_false_r.
  unfold JsString.year_range_here, JsString.four_digits.
  destruct s as [|c1 [|c2 [|c3 r]]]; try done.
  destruct (_ && _ && _ && _); [|done].
  simpl in Hs. apply andb_prop in Hs as (_ & [_ [_ Hr]%andb_prop]%andb_prop).
  destruct r as [|c4 r]; [done|]. simpl in Hr. apply andb_prop in Hr as [Hc4 _].
  cbn [JsString.starts_with JsString.en_dash].
  destruct (Ascii.eqb_spec "-" c4) as [<-|_]; [discriminate Hc4|].
  destruct (Ascii.eqb_spec "226" c4) as [<-|_]; [discriminate Hc4|]. done.
Qed.

Lemma all_digits_string_of_uint d : all_digits (NilEmpty.string_of_uint d) = true.
Proof. induction d; simpl; try done. Qed.

Lemma year_range_here_nondigit c s :
  JsString.is_digit c = false -> JsString.year_range_here (String c s) = false.
Proof.
  intros Hc. unfold JsString.year_range_here, JsString.four_digits.
  destruct s as [|c1 [|c2 [|c3 r]]]; try done. by rewrite Hc.
Qed.

Lemma year_range_match_of_Z n : JsString.year_range_match (JsString.of_Z n) = false.
Proof.
  unfold JsString.of_Z.
  destruct n as [|p|p]; [reflexivity|..]; cbn [Z.to_int NilZero.string_of_int].
  - apply all_digits_no_range. pose proof (Unsigned.to_uint_nonnil p).
    destruct (Pos.to_uint p) eqn:Hd; [done|..]; rewrite <- Hd;
      replace (NilZero.string_of_uint (Pos.to_uint p))
        with (NilEmpty.string_of_uint (Pos.to_uint p)) by (by rewrite Hd);
      apply all_digits_string_of_uint.
  - cbn [JsString.year_range_match].
    rewrite year_range_here_nondigit by reflexivity. rewrite orb_false_l.
    apply all_digits_no_range. pose proof (Unsigned.to_uint_nonnil p).
    destruct (Pos.to_uint p) eqn:Hd; [done|..]; rewrite <- Hd;
      replace (NilZero.string_of_uint (Pos.to_uint p))
        with (NilEmpty.string_of_uint (Pos.to_uint p)) by (by rewrite Hd);
      apply all_digits_string_of_uint.
Qed.

(** X7. A [Year] that is the decimal notation of an integer, negative or not,
    below 2^53 in absolute value, so that [parseInt] reads it exactly,
    never makes the constructor throw: [_yearData] keeps the string and
    [year] is that integer. *)
Theorem Movie_decimal_year obj n :
  names_distinct obj ->
  Z.abs n < 2 ^ 53 ->
  prop obj "Year" = Some (OStr (JsString.of_Z n)) ->
  exists this, Movie_new obj = Normal this /\
               get_prop this "_yearData" = VStr (JsString.of_Z n) /\
               get_prop this "year" = VNum (Some n).
Proof.
  intros Hnd _ Hy.
  destruct (Movie_new_ok obj Hnd) as [this Hthis].
  { unfold Year_error. rewrite Hy. simpl.
    by rewrite year_range_match_of_Z, parseInt_of_Z. }
  exists this. split; [done|].
  destruct (Movie_new_yearData obj _ this Hnd Hy Hthis) as [Hdata Hyear].
  split; [done|]. by rewrite Hyear, year_range_match_of_Z, parseInt_of_Z.
Qed.

(** *** What [Client.get] sends and how it reads the answer *)

Lemma Client_get_sends this request overrides log :
  truthy_string (MovieRequest.name request) || truthy_string (MovieRequest.id request) = true ->
  exists reqopts,
    Client_get this request overrides log =
      (then_ (ky_item log reqopts) (get_then request (mergeOpts this overrides)),
       (log ++ [reqopts])%list) /\
    url reqopts = omdbapi /\
    headers reqopts = [("Content-Type", "application/json")] /\
    req_timeout reqopts = timeout_of (mergeOpts this overrides) /\
    prop (searchParams reqopts) "apikey" =
      Some (of_apiKey (apiKey (mergeOpts this overrides))) /\
    prop (searchParams reqopts) "plot" =
      Some (VStr (if default false (MovieRequest.short_plot request)
                  then "short" else "full")) /\
    prop (searchParams reqopts) "r" = Some (VStr "json") /\
    prop (searchParams reqopts) "y" =
      (fun y => VStr (JsString.of_Z y)) <$> MovieRequest.year request.
Proof.
  intros Hvalid. unfold Client_get.
  destruct (truthy_string (MovieRequest.name request));
    [|destruct (truthy_string (MovieRequest.id request)); [|done]];
    unfold bind, ky, ret; eexists; (split; [reflexivity|]); simpl;
    destruct (MovieRequest.year request); simpl; done.
Qed.

Lemma Client_get_answer this request overrides log p reqopts :
  Client_get this request overrides log = (p, (log ++ [reqopts])%list) ->
  p = then_ (ky_item log reqopts) (get_then request (mergeOpts this overrides)).
Proof.
  intros Hget.
  destruct (truthy_string (MovieRequest.name request)
            || truthy_string (MovieRequest.id request)) eqn:Hvalid.
  - destruct (Client_get_sends this request overrides log Hvalid) as (r & Hr & _).
    rewrite Hr in Hget. injection Hget as <- Hlog.
    by apply app_inj_tail in Hlog as [_ ->].
  - apply orb_false_elim in Hvalid as [Hn Hi].
    unfold Client_get in Hget. rewrite Hn, Hi in Hget. unfold ret in Hget.
    injection Hget as _ Hlog. apply (f_equal length) in Hlog.
    rewrite length_app in Hlog. simpl in Hlog. lia.
Qed.

(** X21. For a request with a name or an id, [Client.get] sends one request to
    the API URL. Its [apikey] and its timeout are those of the options of
    the call where the call has them, and those of the client otherwise;
    [plot] is [short] when [short_plot] is true and [full] otherwise, also
    when it is not given; [r] is [json]; and [y] is the year in decimal
    notation, present exactly when the request has a year. *)
Theorem Client_get_request this request overrides log :
  truthy_string (MovieRequest.name request) || truthy_string (MovieRequest.id request) = true ->
  exists reqopts p,
    Client_get this request overrides log = (p, (log ++ [reqopts])%list) /\
    url reqopts = omdbapi /\
    req_timeout reqopts =
      timeout_of
        {| apiKey := apiKey (client_opts this);
           timeout := match overrides with
                      | Some o => match timeout o with
                                  | Present t => Present t
                                  | Absent => timeout (client_opts this)
                                  end
                      | None => timeout (client_opts this)
                      end |} /\
    prop (searchParams reqopts) "apikey" =
      Some (of_apiKey match overrides with
                      | Some o => match apiKey o with
                                  | Present k => Present k
                                  | Absent => apiKey (client_opts this)
                                  end
                      | None => apiKey (client_opts this)
                      end) /\
    prop (searchParams reqopts) "plot" =
      Some (VStr match MovieRequest.short_plot request with
                 | Some true => "short"
                 | _ => "full"
                 end) /\
    prop (searchParams reqopts) "r" = Some (VStr "json") /\
    prop (searchParams reqopts) "y" =
      match MovieRequest.year request with
      | Some y => Some (VStr (JsString.of_Z y))
      | None => None
      end.
Proof.
  intros Hvalid.
  destruct (Client_get_sends this request overrides log Hvalid)
    as (reqopts & Hget & Hurl & _ & Htimeout & Hkey & Hplot & Hr & Hy).
  exists reqopts, (then_ (ky_item log reqopts) (get_then request (mergeOpts this overrides))).
  split; [done|]. split; [done|]. split; [|split; [|split; [|split; [done|]]]].
  - rewrite Htimeout. unfold mergeOpts, timeout_of, spread.
    destruct overrides as [o|]; simpl; [|done]. by destruct (timeout o).
  - rewrite Hkey. unfold mergeOpts, spread.
    destruct overrides as [o|]; simpl; [|done]. by destruct (apiKey o).
  - rewrite Hplot. by destruct (MovieRequest.short_plot request) as [[]|].
  - rewrite Hy. by destruct (MovieRequest.year request).
Qed.

(** X22. When [Client.get] has sent its request: a failure of the transport
    rejects with the error of the transport, and an answer that is an
    error payload rejects with an [ImdbError] whose message is the
    [Error] of the payload, a colon and the name of the request, or its id
    when the name is missing or empty. *)
Theorem Client_get_failure this request overrides log p reqopts :
  Client_get this request overrides log = (p, (log ++ [reqopts])%list) ->
  match ky_item log reqopts with
  | None => p = Rejected RequestError
  | Some data =>
    isError data = true ->
    p = Rejected (ImdbError (Some (
          OmdbValue_toString (prop data "Error") ++ ": " ++
          (if truthy_string (MovieRequest.name request)
           then option_toString (MovieRequest.name request)
           else option_toString (MovieRequest.id request)))))
  end.
Proof.
  intros ->%Client_get_answer.
  destruct (ky_item log reqopts) as [data|]; simpl; [|done].
  intros Herr. unfold get_then. by rewrite Herr.
Qed.

(** X23. When the answer is not an error payload, [Client.get] tries the guards
    in the order movie, game, series, episode and builds the record of the
    first one that holds, a show with the options of the call and an
    episode without a season argument; what it resolves to was built that
    way. When no guard holds it rejects with an [ImdbError] that quotes the
    [Type] of the payload. *)
Theorem Client_get_classification this request overrides log p reqopts data :
  Client_get this request overrides log = (p, (log ++ [reqopts])%list) ->
  ky_item log reqopts = Some data ->
  isError data = false ->
  (forall item, p = Fulfilled item ->
     match item with
     | IMovie m => isMovie data = true /\ Movie_new data = Normal m
     | IGame g => isMovie data = false /\ isGame data = true /\ Game_new data = Normal g
     | ITVShow t =>
       isMovie data = false /\ isGame data = false /\ isTvshow data = true /\
       TVShow_new data (mergeOpts this overrides) = Normal t
     | IEpisode e =>
       isMovie data = false /\ isGame data = false /\ isTvshow data = false /\
       isEpisode data = true /\ Episode_new data None = Normal e
     end) /\
  (isMovie data = false -> isGame data = false -> isTvshow data = false ->
   isEpisode data = false ->
   p = Rejected (ImdbError (Some ("type: '" ++ OmdbValue_toString (prop data "Type") ++
                                  "' is not valid")))).
Proof.
  intros ->%Client_get_answer Hdata Herr. rewrite Hdata. simpl.
  unfold get_then, fmap_completion. rewrite Herr.
  destruct (isMovie data).
  { split; [|done]. intros item. destruct (Movie_new data); simpl; [|done].
    by intros [= <-]. }
  destruct (isGame data).
  { split; [|done]. intros item. unfold Game_new. destruct (Movie_new data); simpl; [|done].
    by intros [= <-]. }
  destruct (isTvshow data).
  { split; [|done]. intros item. destruct (TVShow_new data _); simpl; [|done].
    by intros [= <-]. }
  destruct (isEpisode data).
  { split; [|done]. intros item. destruct (Episode_new data None); simpl; [|done].
    by intros [= <-]. }
  split; [done|]. done.
Qed.

(** *** Searching *)

(** X24. [Client.search] always sends one request to the API URL, with the
    timeout of the merged options. [apikey] is the key of the merged
    options as a string, [undefined] when it is undefined; [s] is the name
    of the request and [r] is [json]; [y] and [type] are present exactly
    when the request has a year and a type; and there is no parameter
    other than these and [page]. *)
Theorem Client_search_request this request pg overrides log :
  exists reqopts,
    (Client_search this request pg overrides log).2 = (log ++ [reqopts])%list /\
    url reqopts = omdbapi /\
    req_timeout reqopts = timeout_of (mergeOpts this overrides) /\
    prop (searchParams reqopts) "apikey" =
      Some (VStr match apiKey (mergeOpts this overrides) with
                 | Present (Some key) => key
                 | _ => "undefined"
                 end) /\
    prop (searchParams reqopts) "s" = Some (VStr (SearchRequest.name request)) /\
    prop (searchParams reqopts) "r" = Some (VStr "json") /\
    prop (searchParams reqopts) "y" =
      match SearchRequest.year request with
      | Some y => Some (VStr (JsString.of_Z y))
      | None => None
      end /\
    prop (searchParams reqopts) "type" =
      match SearchRequest.reqtype request with
      | Some t => Some (VStr (RequestType.toString t))
      | None => None
      end /\
    (forall k, k ∈ getOwnPropertyNames (searchParams reqopts) ->
               k ∈ ["apikey"; "s"; "page"; "r"; "y"; "type"]).
Proof.
  unfold Client_search, bind, ky, ret. eexists. simpl. split; [done|]. split; [done|].
  split; [done|]. unfold reqtoqueryobj.
  destruct (SearchRequest.year request), (SearchRequest.reqtype request); simpl;
    (split; [by destruct (apiKey (mergeOpts this overrides)) as [|[?|]]|]);
    repeat split; try done;
    intros k Hk;
    repeat (apply elem_of_cons in Hk as [->|Hk]; [in_list|]);
    by apply elem_of_nil in Hk.
Qed.

(** X25. [Client.search] sends one request and settles by its answer: a failure
    of the transport rejects with the error of the transport; an error
    payload rejects with an [ImdbError] whose message is the [Error] of
    the payload, a colon and the name searched for; any other payload
    resolves to a page with one result for each element of [Search], in
    order, none when [Search] is missing, and with the [Response] of the
    payload. *)
Theorem Client_search_settles this request pg overrides log :
  exists reqopts,
    (Client_search this request pg overrides log).2 = (log ++ [reqopts])%list /\
    match ky_search log reqopts with
    | None => (Client_search this request pg overrides log).1 = Rejected RequestError
    | Some data =>
      if isError data then
        (Client_search this request pg overrides log).1 =
          Rejected (ImdbError (Some (option_toString (OmdbSearch.Error data) ++ ": " ++
                                     SearchRequest.name request)))
      else
        exists sr,
          (Client_search this request pg overrides log).1 = Fulfilled sr /\
          results sr = SearchResult_new <$> default [] (OmdbSearch.Search data) /\
          response sr = OmdbSearch.Response data
    end.
Proof.
  unfold Client_search, bind, ky, ret. eexists. simpl. split; [done|].
  destruct (ky_search log _) as [data|]; simpl; [|done].
  unfold search_then. destruct (isError data); simpl; [done|].
  eexists. split; [done|]. simpl. by destruct (OmdbSearch.Search data).
Qed.

(** *** The fields of a search result *)

Lemma SearchResult_attr_lookup obj (this : gmap string JsValue) a k :
  SearchResult_attr obj this a !! k =
    if decide (JsString.toLowerCase a = k)
    then Some (if decide (a = "Year")
               then VNum (JsString.parseInt (OmdbValue_toString (prop obj a)))
               else of_omdb (prop obj a))
    else this !! k.
Proof.
  unfold SearchResult_attr. destruct (decide (a = "Year")) as [->|Hne].
  - case_decide as Hk; [subst k; by rewrite lookup_insert_eq|by rewrite lookup_insert_ne].
  - case_decide as Hk; [subst k; by rewrite lookup_insert_eq|by rewrite lookup_insert_ne].
Qed.

Lemma SearchResult_loop_frame obj l (this : gmap string JsValue) k :
  (forall a, a ∈ l -> JsString.toLowerCase a <> k) ->
  foldl (SearchResult_attr obj) this l !! k = this !! k.
Proof.
  revert this. induction l as [|a l IH]; intros this Hno; simpl; [done|].
  rewrite IH by (intros a' Ha'; apply Hno; by right).
  rewrite SearchResult_attr_lookup, decide_False; [done|]. apply Hno. by left.
Qed.

Lemma SearchResult_loop_written obj l (this : gmap string JsValue) a0 :
  NoDup (JsString.toLowerCase <$> l) -> a0 ∈ l ->
  foldl (SearchResult_attr obj) this l !! JsString.toLowerCase a0 =
    Some (if decide (a0 = "Year")
          then VNum (JsString.parseInt (OmdbValue_toString (prop obj a0)))
          else of_omdb (prop obj a0)).
Proof.
  revert this. induction l as [|a l IH]; intros this Hnd Hin; [by apply elem_of_nil in Hin|].
  rewrite fmap_cons in Hnd. apply NoDup_cons in Hnd as [Hfresh Hnd]. simpl.
  destruct (decide (a = a0)) as [->|Hne].
  - rewrite SearchResult_loop_frame.
    + by rewrite SearchResult_attr_lookup, decide_True.
    + intros a' Ha' Heq. apply Hfresh. rewrite <- Heq. by apply list_elem_of_fmap_2.
  - apply IH; [done|]. by apply elem_of_cons in Hin as [->|Hin].
Qed.

(** X26. For a search hit whose attribute names are ordinary names (ASCII,
    none the name of a member inherited from [Object.prototype], none
    [__proto__] once lower-cased) that differ by more than letter case:
    [name] equals [title]; [year] is the integer read from [Year], NaN when
    it is not a number, and the constructor does not throw; and every
    other attribute is copied unchanged under its lower-cased name, unless
    that name is [name]. *)
Theorem SearchResult_fields obj :
  names_distinct obj ->
  plain_names obj = true ->
  get_prop (SearchResult_new obj) "name" = get_prop (SearchResult_new obj) "title" /\
  (forall y, prop obj "Year" = Some (OStr y) ->
     get_prop (SearchResult_new obj) "year" = VNum (JsString.parseInt y)) /\
  (forall k v, prop obj k = Some v -> k <> "Year" -> JsString.toLowerCase k <> "name" ->
     get_prop (SearchResult_new obj) (JsString.toLowerCase k) = of_omdb (Some v)).
Proof.
  intros Hnd _. unfold SearchResult_new, get_prop. split; [|split].
  - rewrite lookup_insert_eq. by rewrite lookup_insert_ne by done.
  - intros y Hy. rewrite lookup_insert_ne by done.
    change "year" with (JsString.toLowerCase "Year").
    rewrite SearchResult_loop_written; [|done|by eapply prop_Some_name].
    rewrite decide_True by done. by rewrite Hy.
  - intros k v Hv Hk Hname. rewrite lookup_insert_ne by done.
    rewrite SearchResult_loop_written; [|done|by eapply prop_Some_name].
    rewrite decide_False by done. by rewrite Hv.
Qed.

End Further.

(** ** The model on concrete inputs *)

#[local] Existing Instance example_runtime.
#[local] Existing Instance spec_isError_item.
#[local] Existing Instance spec_isError_search.
#[local] Existing Instance spec_isError_season.
#[local] Existing Instance spec_guards.

Lemma names_distinct_example_movie : names_distinct example_movie.
Proof. apply names_distinctb_spec. reflexivity. Qed.

(** C1, as stated, fails: the show has one season, the request asks for
    season 1, upstream answers with a payload labelled season 7, and the
    episode built from it has season 7. *)
Lemma episodes_season_counterexample :
  match TVShow_episodes (T := example_transport None None seasons_mislabelled)
                        (example_show 1) [] with
  | ((Fulfilled [ep], _), [reqopts]) =>
    prop (searchParams reqopts) "Season" = Some (VNum (Some 1)) /\
    get_prop ep "season" = VNum (Some 7) /\
    get_prop ep "season" <> VNum (Some 1)
  | _ => False
  end.
Proof. vm_compute. split; [reflexivity|]. split; [reflexivity|]. discriminate. Qed.

Lemma episodes_season_from_payload_witness :
  let run := TVShow_episodes (T := example_transport None None seasons_one_each)
                             (example_show 2) [] in
  _episodes (example_show 2) = [] /\
  run = ((Fulfilled (fulfilled_or run.1.1 []), run.1.2), run.2) /\
  exists epData groups,
    length epData = length (season_requests (example_show 2)) /\
    (forall i datum, epData !! i = Some datum ->
       @ky_season _ (example_transport None None seasons_one_each)
                 ([] ++ take i (season_requests (example_show 2)))%list
                 (season_reqopts (example_show 2) (Z.of_nat (S i))) = Some datum) /\
    fulfilled_or run.1.1 [] = concat groups /\
    Forall2 (fun datum group =>
               built_from datum group /\
               Forall (fun ep => get_prop ep "season" = payload_season datum) group)
            epData groups.
Proof.
  intros run.
  assert (run = ((Fulfilled (fulfilled_or run.1.1 []), run.1.2), run.2)) as Hrun
    by reflexivity.
  split; [reflexivity|]. split; [exact Hrun|].
  exact (episodes_season_from_payload (T := example_transport None None seasons_one_each)
           (example_show 2) [] _ _ _ eq_refl Hrun).
Defined.

(** C7, as stated, fails: the payload of season 2 is error-classified, but
    season 1 lists an episode whose number does not parse, and the
    aggregation rejects with that [TypeError], not with the [ImdbError]
    carrying the message of season 2. *)
Lemma episodes_error_counterexample :
  isError (example_season_error "Series or season not found!") = true /\
  seasons_bad_then_error 2 = Some (example_season_error "Series or season not found!") /\
  TVShow_episodes (T := example_transport None None seasons_bad_then_error)
                  (example_show 2) [] =
    ((Rejected (TypeError "invalid episode"), example_show 2),
     season_requests (example_show 2)) /\
  TypeError "invalid episode" <> ImdbError (Some "Series or season not found!").
Proof. split; [reflexivity|]. split; [reflexivity|]. split; [vm_compute; reflexivity|discriminate]. Qed.

Lemma episodes_error_rejects_witness :
  let good := example_season "1" [("0", example_entry "Pilot" "1")] in
  let bad := example_season_error "Series or season not found!" in
  _episodes (example_show 2) = [] /\
  Promise_all (receive (@ky_season _ (example_transport None None seasons_good_then_error))
                       (season_requests (example_show 2)) []) = Some [good; bad] /\
  [good; bad] = ([good] ++ bad :: [])%list /\
  isError bad = true /\
  exists e,
    TVShow_episodes (T := example_transport None None seasons_good_then_error)
                    (example_show 2) [] =
      ((Rejected e, example_show 2), ([] ++ season_requests (example_show 2))%list) /\
    (forall built, episodes_then [good] = Normal built ->
                   e = ImdbError (OmdbSeason.Error bad)) /\
    exists k failed,
      (k <= length [good])%nat /\
      [good; bad] !! k = Some failed /\
      (forall j d, (j < k)%nat -> [good; bad] !! j = Some d ->
                   exists group, season_episodes [] d = Normal group) /\
      season_episodes [] failed = Throw e.
Proof.
  intros good bad.
  assert (Promise_all (receive (@ky_season _ (example_transport None None seasons_good_then_error))
                       (season_requests (example_show 2)) []) = Some [good; bad]) as Hall
    by reflexivity.
  split; [reflexivity|]. split; [exact Hall|]. split; [reflexivity|]. split; [reflexivity|].
  exact (episodes_error_rejects (T := example_transport None None seasons_good_then_error)
           (example_show 2) [] [good; bad] [good] bad [] eq_refl Hall eq_refl eq_refl).
Defined.

Lemma episodes_cache_witness :
  let T0 := example_transport None None seasons_empty in
  let run := TVShow_episodes (T := T0) (example_show 2) [] in
  _episodes (example_show 2) = [] /\
  run = ((Fulfilled [], run.1.2), run.2) /\
  run.1.2 = example_show 2 /\
  length run.2 = 2%nat /\
  (TVShow_episodes (T := T0) run.1.2 run.2).2 = (run.2 ++ season_requests (example_show 2))%list.
Proof.
  intros T0 run.
  assert (run = ((Fulfilled [], run.1.2), run.2)) as Hrun by reflexivity.
  destruct (episodes_cache_only_when_nonempty (T := T0) (example_show 2) []) as [_ Hfetch].
  destruct (Hfetch eq_refl) as [_ Hagain].
  destruct (Hagain _ _ Hrun) as [Hsame Hreq].
  split; [reflexivity|]. split; [exact Hrun|]. split; [exact Hsame|].
  split; [reflexivity|exact Hreq].
Defined.

(** C2, as stated, fails: a request that supplies both a name and an id is
    not rejected; it is sent to the transport, by title. *)
Lemma Client_get_both_counterexample :
  truthy_string (MovieRequest.name request_both) = true /\
  truthy_string (MovieRequest.id request_both) = true /\
  match Client_get (T := example_transport (Some example_movie) None (fun _ => None))
                   example_client request_both None [] with
  | (Fulfilled (IMovie _), [reqopts]) =>
    prop (searchParams reqopts) "t" = Some (VStr "Alien")
  | _ => False
  end.
Proof. split; [reflexivity|]. split; [reflexivity|]. vm_compute. reflexivity. Qed.


(** C3. With options that lack an API key the module-level [search] throws
    [ImdbError("Missing api key in opts")] synchronously, where [get]
    returns a promise rejected with that error. *)
Theorem search_missing_apiKey_throws :
  let T0 := example_transport (Some example_movie) (Some example_found) (fun _ => None) in
  search (T := T0) example_search_request options_without_key None [] =
    (Throw (ImdbError (Some "Missing api key in opts")), []) /\
  get (T := T0) request_both options_without_key [] =
    (Normal (Rejected (ImdbError (Some "Missing api key in opts"))), []).
Proof. split; reflexivity. Qed.

(** C6. The year [2015–2019], written with the en dash that the [Movie]
    constructor accepts as a range, is split on the hyphen only: the show
    gets [start_year = 2015] but [end_year = undefined]. *)
Theorem TVShow_en_dash_range :
  let yearData := "2015" ++ JsString.en_dash ++ "2019" in
  JsString.year_range_match yearData = true /\
  match TVShow_new (example_series yearData) example_opts with
  | Normal tvShow => start_year tvShow = Some 2015 /\ end_year tvShow = None
  | Throw _ => False
  end.
Proof. vm_compute. split; [reflexivity|]. split; reflexivity. Qed.

(** With a hyphen both years are found, and an open range has no end. *)
Example TVShow_hyphen_range :
  match TVShow_new (example_series "2015-2019") example_opts with
  | Normal tvShow => start_year tvShow = Some 2015 /\ end_year tvShow = Some 2019
  | Throw _ => False
  end.
Proof. vm_compute. split; reflexivity. Qed.

Example TVShow_open_range :
  match TVShow_new (example_series "2015-") example_opts with
  | Normal tvShow => start_year tvShow = Some 2015 /\ end_year tvShow = None
  | Throw _ => False
  end.
Proof. vm_compute. split; reflexivity. Qed.

Lemma family_invariant_holds_witness :
  let this := normal_or (Movie_new example_movie) ∅ in
  Movie_new example_movie = Normal this /\ family_invariant this.
Proof.
  intros this.
  assert (Movie_new example_movie = Normal this) as Hthis by reflexivity.
  split; [exact Hthis|].
  exact (proj1 (family_invariant_holds (T := example_transport None None seasons_empty))
               example_movie this Hthis).
Defined.

Lemma Movie_year_rule_witness :
  names_distinct example_movie /\
  prop example_movie "Year" = Some (OStr "1979") /\
  exists this, Movie_new example_movie = Normal this /\
               get_prop this "_yearData" = VStr "1979" /\
               get_prop this "year" = VNum (Some 1979).
Proof.
  split; [exact names_distinct_example_movie|]. split; [reflexivity|].
  exact (Movie_year_rule example_movie "1979" names_distinct_example_movie eq_refl).
Defined.

Lemma Movie_dates_lenient_witness :
  names_distinct example_movie /\
  exists this, Movie_new example_movie = Normal this /\
               get_prop this "released" = VUndef /\
               get_prop this "dvd" = VDate 0.
Proof.
  split; [exact names_distinct_example_movie|].
  destruct (Movie_dates_lenient example_movie names_distinct_example_movie)
    as (_ & Hok & Hdates).
  destruct (Hok eq_refl) as [this Hthis]. exists this. split; [exact Hthis|].
  destruct (Hdates this Hthis) as [Hreleased Hdvd].
  split; [exact (Hreleased "N/A" eq_refl)|exact (Hdvd "1999" eq_refl)].
Defined.

Lemma search_pagination_witness :
  let T0 := example_transport None (Some example_found) (fun _ => None) in
  let run := Client_search (T := T0) example_client example_search_request None None [] in
  let sr := SearchResults_new example_found 1 (mergeOpts example_client None)
                              example_search_request in
  Client_new example_opts = Normal example_client /\
  run = (Fulfilled sr, run.2) /\
  length (results sr) = 2%nat /\
  totalresults sr = Some (Some 25) /\
  exists next_reqopts p,
    SearchResults_next (T := T0) sr run.2 = (Normal p, (run.2 ++ [next_reqopts])%list) /\
    searchParams next_reqopts =
      reqtoqueryobj example_search_request
                    (of_apiKey (apiKey (mergeOpts example_client None))) (default 1 None + 1) /\
    req_timeout next_reqopts = timeout_of (mergeOpts example_client None).
Proof.
  intros T0 run sr.
  assert (run = (Fulfilled sr, run.2)) as Hrun by reflexivity.
  split; [reflexivity|]. split; [exact Hrun|]. split; [reflexivity|]. split; [reflexivity|].
  destruct (search_pagination (T := T0) example_opts example_client example_search_request
              None None [] eq_refl) as [_ Hpage].
  destruct (Hpage sr run.2 Hrun) as (_ & _ & _ & _ & _ & Hnext).
  exact Hnext.
Defined.

Example Movie_year_range_kept :
  match Movie_new [("Title", OStr "Show"); ("Year", OStr ("2015" ++ JsString.en_dash))] with
  | Normal this =>
    get_prop this "_yearData" = VStr ("2015" ++ JsString.en_dash) /\
    get_prop this "year" = VUndef
  | Throw _ => False
  end.
Proof. vm_compute. split; reflexivity. Qed.

Example Movie_year_invalid :
  Movie_new [("Title", OStr "Show"); ("Year", OStr "N/A")] = Throw (TypeError "invalid year").
Proof. reflexivity. Qed.

Example parseInt_2015 : JsString.parseInt "2015" = Some 2015.
Proof. reflexivity. Qed.
Example parseInt_prefix : JsString.parseInt " -12abc" = Some (-12).
Proof. reflexivity. Qed.
Example parseInt_nan : JsString.parseInt "N/A" = None.
Proof. reflexivity. Qed.
Example split_range : JsString.split_hyphen "2015-2019" = ["2015"; "2019"].
Proof. reflexivity. Qed.
Example split_open : JsString.split_hyphen "2015-" = ["2015"; ""].
Proof. reflexivity. Qed.
Example range_match : JsString.year_range_match "2015-" = true.
Proof. reflexivity. Qed.
Example range_nomatch : JsString.year_range_match "2015" = false.
Proof. reflexivity. Qed.
Example lower_imdbID : JsString.toLowerCase "imdbID" = "imdbid".
Proof. reflexivity. Qed.
Example of_Z_neg : JsString.of_Z (-5) = "-5" /\ JsString.of_Z 0 = "0" /\ JsString.of_Z 12 = "12".
Proof. repeat split; reflexivity. Qed.

(** *** The further properties on concrete inputs *)

Lemma names_distinct_example_film : names_distinct example_film.
Proof. apply names_distinctb_spec. reflexivity. Qed.

Lemma Movie_copies_attribute_witness :
  let this := normal_or (Movie_new example_film) ∅ in
  names_distinct example_film /\
  plain_names example_film = true /\
  prop example_film "imdbID" = Some (OStr "tt0113277") /\
  ("imdbID" ∉ Movie_special_attrs) /\
  (JsString.toLowerCase "imdbID" ∉ Movie_reserved_keys) /\
  Movie_new example_film = Normal this /\
  get_prop this "imdbid" = VStr "tt0113277".
Proof.
  intros this.
  assert ("imdbID" ∉ Movie_special_attrs) as Hsp by (apply (bool_decide_unpack _); exact I).
  assert (JsString.toLowerCase "imdbID" ∉ Movie_reserved_keys) as Hres
    by (apply (bool_decide_unpack _); exact I).
  assert (Movie_new example_film = Normal this) as Hthis by reflexivity.
  split; [exact names_distinct_example_film|]. split; [reflexivity|].
  split; [reflexivity|].
  split; [exact Hsp|]. split; [exact Hres|]. split; [exact Hthis|].
  exact (Movie_copies_attribute example_film "imdbID" (OStr "tt0113277") this
           names_distinct_example_film eq_refl eq_refl Hsp Hres Hthis).
Defined.

Lemma Movie_renames_attribute_witness :
  let this := normal_or (Movie_new example_film) ∅ in
  ("Genre", "genres") ∈ [("Genre", "genres"); ("Language", "languages"); ("imdbVotes", "votes")] /\
  names_distinct example_film /\
  ("genres" ∉ JsString.toLowerCase <$> getOwnPropertyNames example_film) /\
  prop example_film "Genre" = Some (OStr "Action, Crime") /\
  Movie_new example_film = Normal this /\
  get_prop this "genres" = VStr "Action, Crime".
Proof.
  intros this.
  assert (("Genre", "genres") ∈
            [("Genre", "genres"); ("Language", "languages"); ("imdbVotes", "votes")]) as Hpair
    by apply list_elem_of_here.
  assert ("genres" ∉ JsString.toLowerCase <$> getOwnPropertyNames example_film) as Hfree
    by (apply (bool_decide_unpack _); exact I).
  assert (Movie_new example_film = Normal this) as Hthis by reflexivity.
  split; [exact Hpair|]. split; [exact names_distinct_example_film|].
  split; [exact Hfree|]. split; [reflexivity|]. split; [exact Hthis|].
  exact (Movie_renames_attribute example_film "Genre" "genres" (OStr "Action, Crime") this
           Hpair names_distinct_example_film Hfree eq_refl Hthis).
Defined.

Lemma Movie_rating_witness :
  let this := normal_or (Movie_new example_film) ∅ in
  names_distinct example_film /\
  ("rating" ∉ JsString.toLowerCase <$> getOwnPropertyNames example_film) /\
  prop example_film "imdbRating" = Some (OStr "N/A") /\
  Movie_new example_film = Normal this /\
  get_prop this "rating" = VFloat float_zero.
Proof.
  intros this.
  assert ("rating" ∉ JsString.toLowerCase <$> getOwnPropertyNames example_film) as Hfree
    by (apply (bool_decide_unpack _); exact I).
  assert (Movie_new example_film = Normal this) as Hthis by reflexivity.
  split; [exact names_distinct_example_film|]. split; [exact Hfree|].
  split; [reflexivity|]. split; [exact Hthis|].
  exact (Movie_rating example_film "N/A" this names_distinct_example_film Hfree eq_refl Hthis).
Defined.

Lemma Movie_ratings_witness :
  let this := normal_or (Movie_new example_film) ∅ in
  names_distinct example_film /\
  Movie_new example_film = Normal this /\
  get_prop this "ratings" =
    VArr [NewRating {| source := Some "Internet Movie Database"; value := Some "8.3/10" |}].
Proof.
  intros this.
  assert (Movie_new example_film = Normal this) as Hthis by reflexivity.
  split; [exact names_distinct_example_film|]. split; [exact Hthis|].
  exact (proj1 (Movie_ratings example_film this names_distinct_example_film Hthis)
               _ eq_refl).
Defined.

Lemma Movie_imdburl_witness :
  let this := normal_or (Movie_new example_film) ∅ in
  Movie_new example_film = Normal this /\
  get_prop this "imdburl" = VStr "https://www.imdb.com/title/tt0113277".
Proof.
  intros this.
  assert (Movie_new example_film = Normal this) as Hthis by reflexivity.
  split; [exact Hthis|].
  exact (proj2 (proj1 (proj2 (Movie_imdburl example_film this Hthis))
                      names_distinct_example_film "tt0113277" eq_refl)).
Defined.

Lemma Movie_keys_lower_case_witness :
  let this := normal_or (Movie_new example_film) ∅ in
  plain_names example_film = true /\
  Movie_new example_film = Normal this /\
  is_Some (this !! "imdbid") /\
  ("imdbid" = "_yearData" \/ has_upper "imdbid" = false).
Proof.
  intros this.
  assert (Movie_new example_film = Normal this) as Hthis by reflexivity.
  assert (is_Some (this !! "imdbid")) as Hk by (eexists; reflexivity).
  split; [reflexivity|]. split; [exact Hthis|]. split; [exact Hk|].
  exact (Movie_keys_lower_case example_film this "imdbid" eq_refl Hthis Hk).
Defined.

Lemma Movie_decimal_year_witness :
  names_distinct example_film /\
  Z.abs 1995 < 2 ^ 53 /\
  prop example_film "Year" = Some (OStr (JsString.of_Z 1995)) /\
  exists this, Movie_new example_film = Normal this /\
               get_prop this "_yearData" = VStr "1995" /\
               get_prop this "year" = VNum (Some 1995).
Proof.
  split; [exact names_distinct_example_film|]. split; [reflexivity|].
  split; [reflexivity|].
  exact (Movie_decimal_year example_film 1995 names_distinct_example_film eq_refl eq_refl).
Defined.

Lemma names_distinct_example_episode : names_distinct example_episode.
Proof. apply names_distinctb_spec. reflexivity. Qed.

Lemma names_distinct_example_entry title number : names_distinct (example_entry title number).
Proof. apply names_distinctb_spec. reflexivity. Qed.

Lemma Episode_standalone_witness :
  names_distinct example_episode /\
  Year_error example_episode = None /\
  exists this, Episode_new example_episode None = Normal this /\
               get_prop this "season" = VNum (Some 3) /\
               get_prop this "episode" = VNum (Some 4).
Proof.
  split; [exact names_distinct_example_episode|]. split; [reflexivity|].
  exact (Episode_standalone example_episode names_distinct_example_episode eq_refl).
Defined.

Lemma Episode_with_season_witness :
  names_distinct example_episode /\
  Year_error example_episode = None /\
  exists this, Episode_new example_episode (Some (Some 7)) = Normal this /\
               get_prop this "season" = VNum (Some 7) /\
               get_prop this "episode" = VNum (Some 4).
Proof.
  split; [exact names_distinct_example_episode|]. split; [reflexivity|].
  exact (Episode_with_season example_episode (Some 7) names_distinct_example_episode eq_refl).
Defined.

Lemma names_distinct_example_series yearData : names_distinct (example_series yearData).
Proof. apply names_distinctb_spec. reflexivity. Qed.

Lemma TVShow_hyphen_years_witness :
  names_distinct (example_series "2015-2019") /\
  prop (example_series "2015-2019") "Year" = Some (OStr ("2015" ++ String "-" "2019")) /\
  year_error (OStr ("2015" ++ String "-" "2019")) = None /\
  contains_char "-" "2015" = false /\ contains_char "-" "2019" = false /\
  exists tvShow, TVShow_new (example_series "2015-2019") example_opts = Normal tvShow /\
    start_year tvShow = Some 2015 /\
    end_year tvShow = Some 2019.
Proof.
  split; [exact (names_distinct_example_series _)|].
  split; [reflexivity|]. split; [reflexivity|]. split; [reflexivity|]. split; [reflexivity|].
  exact (TVShow_hyphen_years (example_series "2015-2019") example_opts "2015" "2019"
           (names_distinct_example_series _) eq_refl eq_refl eq_refl eq_refl).
Defined.

Lemma TVShow_no_hyphen_no_end_witness :
  names_distinct (example_series "2015") /\
  prop (example_series "2015") "Year" = Some (OStr "2015") /\
  year_error (OStr "2015") = None /\
  contains_char "-" "2015" = false /\
  exists tvShow, TVShow_new (example_series "2015") example_opts = Normal tvShow /\
    start_year tvShow = Some 2015 /\
    end_year tvShow = None.
Proof.
  split; [exact (names_distinct_example_series _)|].
  split; [reflexivity|]. split; [reflexivity|]. split; [reflexivity|].
  exact (TVShow_no_hyphen_no_end (example_series "2015") example_opts "2015"
           (names_distinct_example_series _) eq_refl eq_refl eq_refl).
Defined.

Lemma TVShow_needs_Year_witness :
  names_distinct (example_entry "Pilot" "1") /\
  prop (example_entry "Pilot" "1") "Year" = None /\
  (exists this, Movie_new (example_entry "Pilot" "1") = Normal this) /\
  (exists message,
     TVShow_new (example_entry "Pilot" "1") example_opts = Throw (TypeError message)).
Proof.
  split; [exact (names_distinct_example_entry _ _)|]. split; [reflexivity|].
  exact (TVShow_needs_Year (example_entry "Pilot" "1") example_opts
           (names_distinct_example_entry _ _) eq_refl).
Defined.

Lemma episodes_without_seasons_witness :
  let T0 := example_transport None None seasons_one_each in
  _episodes (example_show 0) = [] /\
  0 <= 0 /\
  TVShow_episodes (T := T0) (example_show 0) [] = ((Fulfilled [], example_show 0), []).
Proof.
  intros T0.
  assert (0 <= 0) as Hle by lia.
  split; [reflexivity|]. split; [exact Hle|].
  exact (episodes_without_seasons (T := T0) (example_show 0) [] eq_refl Hle).
Defined.

Lemma episodes_requests_witness :
  let T0 := example_transport None None seasons_one_each in
  _episodes (example_show 2) = [] /\
  totalseasons (example_show 2) = Some 2 /\
  exists reqs,
    (TVShow_episodes (T := T0) (example_show 2) []).2 = ([] ++ reqs)%list /\
    length reqs = 2%nat /\
    forall k reqopts,
      reqs !! k = Some reqopts ->
      prop (searchParams reqopts) "Season" = Some (VNum (Some (Z.of_nat (S k)))) /\
      prop (searchParams reqopts) "i" = Some (VStr "tt1") /\
      prop (searchParams reqopts) "apikey" = Some (VStr "k") /\
      prop (searchParams reqopts) "r" = Some (VStr "json") /\
      req_timeout reqopts = None /\
      url reqopts = omdbapi.
Proof.
  intros T0. split; [reflexivity|]. split; [reflexivity|].
  exact (episodes_requests (T := T0) (example_show 2) [] 2 eq_refl eq_refl).
Defined.

Lemma episodes_memoized_witness :
  let T0 := example_transport None None seasons_one_each in
  let run := TVShow_episodes (T := T0) (example_show 2) [] in
  let eps := fulfilled_or run.1.1 [] in
  run = ((Fulfilled eps, run.1.2), run.2) /\
  eps <> [] /\
  _episodes run.1.2 = eps /\
  TVShow_episodes (T := T0) run.1.2 run.2 = ((Fulfilled eps, run.1.2), run.2).
Proof.
  intros T0 run eps.
  assert (run = ((Fulfilled eps, run.1.2), run.2)) as Hrun by reflexivity.
  assert (eps <> []) as Hne by (intros Heq%(f_equal length); discriminate Heq).
  split; [exact Hrun|]. split; [exact Hne|].
  exact (episodes_memoized (T := T0) (example_show 2) [] eps run.1.2 run.2 run.2 Hrun Hne).
Defined.

Lemma episodes_request_failure_witness :
  let T0 := example_transport None None (fun _ => None) in
  _episodes (example_show 2) = [] /\
  season_requests (example_show 2) !! 1%nat = Some (season_reqopts (example_show 2) 2) /\
  @ky_season _ T0 ([] ++ take 1 (season_requests (example_show 2)))%list
             (season_reqopts (example_show 2) 2) = None /\
  TVShow_episodes (T := T0) (example_show 2) [] =
    ((Rejected RequestError, example_show 2), ([] ++ season_requests (example_show 2))%list).
Proof.
  intros T0. split; [reflexivity|]. split; [reflexivity|]. split; [reflexivity|].
  exact (episodes_request_failure (T := T0) (example_show 2) [] 1
           (season_reqopts (example_show 2) 2) eq_refl eq_refl eq_refl).
Defined.

Lemma episodes_count_witness :
  let T0 := example_transport None None seasons_one_each in
  let run := TVShow_episodes (T := T0) (example_show 2) [] in
  let eps := fulfilled_or run.1.1 [] in
  _episodes (example_show 2) = [] /\
  run = ((Fulfilled eps, run.1.2), run.2) /\
  _episodes run.1.2 = eps /\
  exists epData,
    Promise_all (receive (@ky_season _ T0) (season_requests (example_show 2)) []) =
      Some epData /\
    length epData = length (season_requests (example_show 2)) /\
    length eps = sum_list_with entry_count epData.
Proof.
  intros T0 run eps.
  assert (run = ((Fulfilled eps, run.1.2), run.2)) as Hrun by reflexivity.
  split; [reflexivity|]. split; [exact Hrun|].
  exact (episodes_count (T := T0) (example_show 2) [] eps run.1.2 run.2 eq_refl Hrun).
Defined.

Lemma episodes_missing_Episodes_witness :
  let T0 := example_transport None None seasons_bare in
  _episodes (example_show 1) = [] /\
  Promise_all (receive (@ky_season _ T0) (season_requests (example_show 1)) []) =
    Some ([] ++ example_season_bare :: [])%list /\
  isError example_season_bare = false /\
  OmdbSeason.Episodes example_season_bare = None /\
  exists e,
    TVShow_episodes (T := T0) (example_show 1) [] =
      ((Rejected e, example_show 1), ([] ++ season_requests (example_show 1))%list) /\
    (forall built, episodes_then [] = Normal built -> exists message, e = TypeError message).
Proof.
  intros T0.
  assert (Promise_all (receive (@ky_season _ T0) (season_requests (example_show 1)) []) =
            Some ([] ++ example_season_bare :: [])%list) as Hall by reflexivity.
  split; [reflexivity|]. split; [exact Hall|]. split; [reflexivity|]. split; [reflexivity|].
  exact (episodes_missing_Episodes (T := T0) (example_show 1) [] [] example_season_bare []
           eq_refl Hall eq_refl eq_refl).
Defined.

Lemma episodes_season_of_request_witness :
  let T0 := example_transport None None seasons_one_each in
  let run := TVShow_episodes (T := T0) (example_show 2) [] in
  let eps := fulfilled_or run.1.1 [] in
  _episodes (example_show 2) = [] /\
  Z.of_nat (length (season_requests (example_show 2))) < 2 ^ 53 /\
  run = ((Fulfilled eps, run.1.2), run.2) /\
  (forall k reqopts datum,
     season_requests (example_show 2) !! k = Some reqopts ->
     @ky_season _ T0 ([] ++ take k (season_requests (example_show 2)))%list reqopts =
       Some datum ->
     OmdbSeason.Season datum = Some (JsString.of_Z (Z.of_nat (S k)))) /\
  exists groups,
    eps = concat groups /\
    length groups = length (season_requests (example_show 2)) /\
    forall i group,
      groups !! i = Some group ->
      (exists reqopts datum,
         season_requests (example_show 2) !! i = Some reqopts /\
         @ky_season _ T0 ([] ++ take i (season_requests (example_show 2)))%list reqopts =
           Some datum /\
         built_from datum group) /\
      (forall ep, ep ∈ group -> get_prop ep "season" = VNum (Some (Z.of_nat (S i)))).
Proof.
  intros T0 run eps.
  assert (run = ((Fulfilled eps, run.1.2), run.2)) as Hrun by reflexivity.
  assert (forall k reqopts datum,
            season_requests (example_show 2) !! k = Some reqopts ->
            @ky_season _ T0 ([] ++ take k (season_requests (example_show 2)))%list reqopts =
              Some datum ->
            OmdbSeason.Season datum = Some (JsString.of_Z (Z.of_nat (S k)))) as Hlabel.
  { intros k reqopts datum Hk Hdatum.
    destruct k as [|[|k]]; [| |discriminate Hk].
    - injection Hk as <-. injection Hdatum as <-. reflexivity.
    - injection Hk as <-. injection Hdatum as <-. reflexivity. }
  split; [reflexivity|]. split; [reflexivity|]. split; [exact Hrun|].
  split; [exact Hlabel|].
  exact (episodes_season_of_request (T := T0) (example_show 2) [] eps run.1.2 run.2
           eq_refl eq_refl Hrun Hlabel).
Defined.

Lemma get_show_keeps_options_witness :
  let T0 := example_transport (Some (example_series "2015-2019")) None (fun _ => None) in
  let run := Client_get (T := T0) example_client request_both (Some example_overrides) [] in
  let tvShow := show_or run.1 (example_show 0) in
  run = (Fulfilled (ITVShow tvShow), run.2) /\
  opts tvShow = {| apiKey := Present (Some "k"); timeout := Present (Some 5000) |} /\
  _episodes tvShow = [] /\
  forall i,
    req_timeout (season_reqopts tvShow i) = Some 5000 /\
    prop (searchParams (season_reqopts tvShow i)) "apikey" = Some (VStr "k").
Proof.
  intros T0 run tvShow.
  assert (run = (Fulfilled (ITVShow tvShow), run.2)) as Hrun by reflexivity.
  split; [exact Hrun|].
  exact (get_show_keeps_options (T := T0) example_client request_both (Some example_overrides)
           [] tvShow run.2 Hrun).
Defined.

Lemma Client_get_request_witness :
  let T0 := example_transport (Some example_movie) None (fun _ => None) in
  truthy_string (MovieRequest.name request_both)
    || truthy_string (MovieRequest.id request_both) = true /\
  exists reqopts p,
    Client_get (T := T0) example_client request_both (Some example_overrides) [] =
      (p, ([] ++ [reqopts])%list) /\
    url reqopts = omdbapi /\
    req_timeout reqopts = Some 5000 /\
    prop (searchParams reqopts) "apikey" = Some (VStr "k") /\
    prop (searchParams reqopts) "plot" = Some (VStr "full") /\
    prop (searchParams reqopts) "r" = Some (VStr "json") /\
    prop (searchParams reqopts) "y" = None.
Proof.
  intros T0. split; [reflexivity|].
  exact (Client_get_request (T := T0) example_client request_both (Some example_overrides) []
           eq_refl).
Defined.

Lemma Client_get_failure_witness :
  let T0 := example_transport (Some example_error) None (fun _ => None) in
  let run := Client_get (T := T0) example_client request_both None [] in
  let reqopts := default (season_reqopts (example_show 0) 0) (last run.2) in
  run = (run.1, ([] ++ [reqopts])%list) /\
  @ky_item _ T0 [] reqopts = Some example_error /\
  isError example_error = true /\
  run.1 = Rejected (ImdbError (Some "Movie not found!: Alien")).
Proof.
  intros T0 run reqopts.
  assert (run = (run.1, ([] ++ [reqopts])%list)) as Hrun by reflexivity.
  split; [exact Hrun|]. split; [reflexivity|]. split; [reflexivity|].
  exact (Client_get_failure (T := T0) example_client request_both None [] run.1 reqopts
           Hrun eq_refl).
Defined.

Lemma Client_get_classification_witness :
  let T0 := example_transport (Some example_film) None (fun _ => None) in
  let run := Client_get (T := T0) example_client request_both None [] in
  let reqopts := default (season_reqopts (example_show 0) 0) (last run.2) in
  run = (run.1, ([] ++ [reqopts])%list) /\
  @ky_item _ T0 [] reqopts = Some example_film /\
  isError example_film = false /\
  exists m, run.1 = Fulfilled (IMovie m) /\
            isMovie example_film = true /\ Movie_new example_film = Normal m.
Proof.
  intros T0 run reqopts.
  assert (run = (run.1, ([] ++ [reqopts])%list)) as Hrun by reflexivity.
  split; [exact Hrun|]. split; [reflexivity|]. split; [reflexivity|].
  exists (normal_or (Movie_new example_film) ∅).
  assert (run.1 = Fulfilled (IMovie (normal_or (Movie_new example_film) ∅))) as Hp
    by reflexivity.
  split; [exact Hp|].
  exact (proj1 (Client_get_classification (T := T0) example_client request_both None []
                  run.1 reqopts example_film Hrun eq_refl eq_refl) _ Hp).
Defined.

Lemma names_distinct_example_hit : names_distinct example_hit.
Proof. apply names_distinctb_spec. reflexivity. Qed.

Lemma SearchResult_fields_witness :
  names_distinct example_hit /\
  plain_names example_hit = true /\
  get_prop (SearchResult_new example_hit) "name" = VStr "The Toxic Avenger" /\
  get_prop (SearchResult_new example_hit) "year" = VNum (Some 1984) /\
  get_prop (SearchResult_new example_hit) "imdbid" = VStr "tt0090190".
Proof.
  destruct (SearchResult_fields example_hit names_distinct_example_hit eq_refl)
    as (Hname & Hyear & Hcopy).
  split; [exact names_distinct_example_hit|]. split; [reflexivity|].
  split; [exact Hname|].
  split; [exact (Hyear "1984" eq_refl)|].
  assert ("imdbID" <> "Year") as Hne by discriminate.
  assert (JsString.toLowerCase "imdbID" <> "name") as Hne' by discriminate.
  exact (Hcopy "imdbID" (OStr "tt0090190") eq_refl Hne Hne').
Defined.
